(** * bisq: a fluent builder of parameterised SELECT statements

    Shallow embedding of [bisq.go] and verification of the WHERE-clause
    assembler ([buildWhereClause]), the value extractor
    ([recursiveValues]) and the statement renderer ([Get]).

    Conventions of the embedding.
    - A Go [string] is a [string] (a sequence of bytes); [strings.Builder]
      is the string written so far and [WriteString] appends to it.
    - A Go [int] is a [Z].  The only arithmetic on an [int] is the
      placeholder counter's [whereValue + 1]; the counter is bounded by the
      number of placeholders already written into the clause text (each one
      at least two bytes of a Go string, whose length is itself an [int]),
      so the 64-bit wrap-around is not reachable and is not written out.
    - The pointer receiver [b *Builder] is explicit state passing: every
      method takes the builder and returns the updated builder.
    - [interface{}] values are the scalars of [Value].
    - A callback [func(b *Builder)] is the sequence of builder calls its
      body makes on the builder it receives ([Call]); invoking it runs
      those calls, through the methods below, on that builder. *)

From Stdlib Require Import ZArith List String Ascii Bool Arith Lia.
From Stdlib Require Import Numbers.DecimalString.
From Stdlib Require DecimalPos DecimalZ.
Import ListNotations.
Open Scope list_scope.
Open Scope string_scope.

(** ** The parts of Go's standard library the builder uses *)

Module strings.

(** [strings.ToLower] and [strings.ToUpper], byte by byte on the ASCII
    letters.  [OrderBy] only compares the lowered direction with the
    ASCII words asc and desc, and no rune outside ASCII lowers to one of
    their letters, so the byte-wise mapping decides that comparison as
    Go's does; [ToUpper] is then applied to an ASCII string. *)
Definition lower_byte (c : ascii) : ascii :=
  let n := nat_of_ascii c in
  if (65 <=? n)%nat && (n <=? 90)%nat then ascii_of_nat (n + 32) else c.

Definition upper_byte (c : ascii) : ascii :=
  let n := nat_of_ascii c in
  if (97 <=? n)%nat && (n <=? 122)%nat then ascii_of_nat (n - 32) else c.

Fixpoint map_bytes (f : ascii -> ascii) (s : string) : string :=
  match s with
  | EmptyString => EmptyString
  | String c s' => String (f c) (map_bytes f s')
  end.

Definition ToLower (s : string) : string := map_bytes lower_byte s.
Definition ToUpper (s : string) : string := map_bytes upper_byte s.

(** [strings.Join(elems, sep)]. *)
Definition Join (elems : list string) (sep : string) : string :=
  String.concat sep elems.

(** [strings.HasPrefix(s, prefix)]. *)
Definition HasPrefix (s prefix : string) : bool := String.prefix prefix s.

(** [strings.Contains(s, substr)]. *)
Fixpoint Contains (s substr : string) : bool :=
  HasPrefix s substr ||
  match s with
  | EmptyString => false
  | String _ s' => Contains s' substr
  end.

(** [strings.ReplaceAll(s, old, new)] for a non-empty [old] (its only
    use has the constant [[WHERE]]): the non-overlapping occurrences of
    [old] are replaced from left to right.  [skip] counts the bytes of
    an occurrence that are still to be dropped. *)
Fixpoint replace_from (s old new : string) (skip : nat) : string :=
  match s with
  | EmptyString => EmptyString
  | String c s' =>
      match skip with
      | S k => replace_from s' old new k
      | O =>
          if HasPrefix s old
          then new ++ replace_from s' old new (String.length old - 1)
          else String c (replace_from s' old new 0)
      end
  end.

Definition ReplaceAll (s old new : string) : string :=
  replace_from s old new 0.

(** [strings.Count(s, substr)] for a one-byte [substr]. *)
Fixpoint CountByte (s : string) (c : ascii) : nat :=
  match s with
  | EmptyString => 0
  | String d s' => (if Ascii.eqb d c then 1 else 0) + CountByte s' c
  end.

End strings.

(** Bound values: the scalars a caller passes as [interface{}]. *)
Inductive Value : Type :=
| VInt (n : Z)
| VString (s : string)
| VBool (b : bool)
| VNil.

Module fmt.

(** [fmt.Sprintf("%v", n)] for an [int]: decimal, with a minus sign. *)
Definition Sprint_int (n : Z) : string :=
  NilZero.string_of_int (Z.to_int n).

(** [fmt.Sprintf("%v", v)] for a scalar. *)
Definition Sprint (v : Value) : string :=
  match v with
  | VInt n => Sprint_int n
  | VString s => s
  | VBool true => "true"
  | VBool false => "false"
  | VNil => "<nil>"
  end.

End fmt.

(** ** Blocks *)

Record OrderByBlock : Type := mkOrderByBlock {
  ob_column : string;
  ob_direction : string
}.

Record LimitBlock : Type := mkLimitBlock { lb_limit : Z }.
Record OffsetBlock : Type := mkOffsetBlock { ofb_offset : Z }.

(** The calls a callback makes on the builder it is given.  ([Get] on
    that builder would only write the builder's own text, which the
    parent never reads.) *)
#[local] Set Warnings "-register-all".
Inductive Call : Type :=
| CallWhere (column : string) (value : list Value)
| CallWhereNull (column : string)
| CallWhereFn (fn : list Call)
| CallOr
| CallOrderBy (column direction : string)
| CallLimit (limit : Z)
| CallOffset (offset : Z).

(** The blocks that the methods append to [wheres]: [*WhereBlock],
    [*WhereNullBlock], [*OrBlock] and [*WhereFnBlock]. *)
Inductive Block : Type :=
| WhereBlock (column : string) (value : Value) (op : string)
| WhereNullBlock (column : string)
| OrBlock
| WhereFnBlock (fn : list Call).

Definition OrderByBlock_String (o : OrderByBlock) : string :=
  ob_column o ++ " " ++ ob_direction o.

Definition WhereBlock_String (column op : string) : string :=
  column ++ " " ++ op ++ " " ++ "[WHERE]".

Definition OffsetBlock_String (o : OffsetBlock) : string :=
  "OFFSET " ++ fmt.Sprint_int (ofb_offset o).

Definition LimitBlock_String (l : LimitBlock) : string :=
  "LIMIT " ++ fmt.Sprint_int (lb_limit l).

Definition WhereNullBlock_String (column : string) : string :=
  column ++ " IS NULL".

Definition OrBlock_String : string := "OR".

Definition WhereFnBlock_String : string := "".

Definition Block_String (block : Block) : string :=
  match block with
  | WhereBlock column _ op => WhereBlock_String column op
  | WhereNullBlock column => WhereNullBlock_String column
  | OrBlock => OrBlock_String
  | WhereFnBlock _ => WhereFnBlock_String
  end.

(** The type assertion [_, ok := block.( *OrBlock)]. *)
Definition is_OrBlock (block : option Block) : bool :=
  match block with
  | Some OrBlock => true
  | _ => false
  end.

(** ** The builder *)

Record Builder : Type := mkBuilder {
  query : string;
  tableName : string;
  wheres : list Block;
  limit : option LimitBlock;
  offset : option OffsetBlock;
  prev : option Block;
  orderBys : list OrderByBlock
}.

Definition WriteString (b : Builder) (s : string) : Builder :=
  mkBuilder (query b ++ s) (tableName b) (wheres b) (limit b) (offset b)
            (prev b) (orderBys b).

Definition set_wheres (b : Builder) (l : list Block) : Builder :=
  mkBuilder (query b) (tableName b) l (limit b) (offset b) (prev b)
            (orderBys b).

Definition set_prev (b : Builder) (p : option Block) : Builder :=
  mkBuilder (query b) (tableName b) (wheres b) (limit b) (offset b) p
            (orderBys b).

Definition Table (name : string) : Builder :=
  mkBuilder "" name [] None None None [].

Definition Builder_String (b : Builder) : string := query b.

Definition Limit (b : Builder) (limit' : Z) : Builder :=
  let block := mkLimitBlock limit' in
  mkBuilder (query b) (tableName b) (wheres b) (Some block) (offset b)
            (prev b) (orderBys b).

Definition Offset (b : Builder) (offset' : Z) : Builder :=
  let block := mkOffsetBlock offset' in
  mkBuilder (query b) (tableName b) (wheres b) (limit b) (Some block)
            (prev b) (orderBys b).

Definition OrderBy (b : Builder) (column direction : string) : Builder :=
  let direction :=
    if negb (String.eqb (strings.ToLower direction) "asc")
       && negb (String.eqb (strings.ToLower direction) "desc")
    then "asc" else direction in
  let direction := strings.ToUpper direction in
  let block := mkOrderByBlock column direction in
  mkBuilder (query b) (tableName b) (wheres b) (limit b) (offset b)
            (prev b) (orderBys b ++ [block]).

Definition Where (b : Builder) (column : string) (value : list Value)
  : Builder :=
  match value with
  | [] => b
  | value0 :: value_tl =>
      let block := WhereBlock column value0 "=" in
      let block :=
        match value_tl with
        | value1 :: _ => WhereBlock column value1 (fmt.Sprint value0)
        | [] => block
        end in
      set_wheres b (wheres b ++ [block])
  end.

Definition WhereNull (b : Builder) (column : string) : Builder :=
  let block := WhereNullBlock column in
  set_wheres b (wheres b ++ [block]).

Definition WhereFn (b : Builder) (fn : list Call) : Builder :=
  let block := WhereFnBlock fn in
  set_wheres b (wheres b ++ [block]).

Definition Or (b : Builder) : Builder :=
  let block := OrBlock in
  set_wheres b (wheres b ++ [block]).

(** Running a callback on the builder it receives. *)
Definition Call_apply (b : Builder) (c : Call) : Builder :=
  match c with
  | CallWhere column value => Where b column value
  | CallWhereNull column => WhereNull b column
  | CallWhereFn fn => WhereFn b fn
  | CallOr => Or b
  | CallOrderBy column direction => OrderBy b column direction
  | CallLimit n => Limit b n
  | CallOffset n => Offset b n
  end.

Definition fn_call (fn : list Call) (b : Builder) : Builder :=
  fold_left Call_apply fn b.

(** The builder of a nested group: [&Builder{tableName: b.tableName,
    wheres: make([]Block, 0), orderBys: []Block{}}]. *)
Definition subBuilder (b_tableName : string) : Builder :=
  mkBuilder "" b_tableName [] None None None [].

(** ** The clause assembler *)

Section BuildWhereClause.

(** The recursive call [innerBuilder.buildWhereClause(whereValue)]. *)
Variable rec : Builder -> Z -> string * Z.
Variable b_tableName : string.

(** The [switch] of the loop body: the text written to [innerSB] and
    the counter after it. *)
Definition renderBlock (block : Block) (whereValue : Z) : string * Z :=
  match block with
  | WhereBlock column _ op =>
      (strings.ReplaceAll (WhereBlock_String column op) "[WHERE]"
         ("$" ++ fmt.Sprint_int (whereValue + 1)),
       (whereValue + 1)%Z)
  | WhereNullBlock column => (WhereNullBlock_String column, whereValue)
  | OrBlock => ("", whereValue)
  | WhereFnBlock fn =>
      let innerBuilder := fn_call fn (subBuilder b_tableName) in
      let '(innerSubQuery, innerSubWhereValue) :=
        rec innerBuilder whereValue in
      ("(" ++ innerSubQuery ++ ")", innerSubWhereValue)
  end.

(** The [if idx > 0] of the loop body: what is written to [subSB]
    before the block's own text. *)
Definition joiner (idx : nat) (b_prev : option Block) (block : Block)
  : string :=
  if (0 <? idx)%nat then
    if is_OrBlock b_prev then " OR "
    else if negb (is_OrBlock (Some block)) then " AND " else ""
  else "".

(** [for idx, block := range b.wheres]: the state is the text in
    [subSB], the counter and [b.prev]. *)
Fixpoint range_wheres (blocks : list Block) (idx : nat) (subSB : string)
         (whereValue : Z) (b_prev : option Block)
  : string * Z * option Block :=
  match blocks with
  | [] => (subSB, whereValue, b_prev)
  | block :: rest =>
      let '(innerSB, whereValue) := renderBlock block whereValue in
      let subSB := subSB ++ joiner idx b_prev block in
      let subSB := subSB ++ innerSB in
      range_wheres rest (S idx) subSB whereValue (Some block)
  end.

End BuildWhereClause.

(** Nesting depth of callbacks: the recursion of [buildWhereClause] and
    [recursiveValues] descends one level per nested [WhereFn]. *)
Fixpoint Call_depth (c : Call) : nat :=
  match c with
  | CallWhereFn fn =>
      S (fold_right (fun c d => Nat.max (Call_depth c) d) 0%nat fn)
  | _ => 0%nat
  end.

Definition fn_depth (fn : list Call) : nat :=
  fold_right (fun c d => Nat.max (Call_depth c) d) 0%nat fn.

Definition Block_depth (block : Block) : nat :=
  match block with
  | WhereFnBlock fn => S (fn_depth fn)
  | _ => 0%nat
  end.

Definition wheres_depth (blocks : list Block) : nat :=
  fold_right (fun block d => Nat.max (Block_depth block) d) 0%nat blocks.

(** [buildWhereClause] with a bound on the depth of the recursion. *)
Fixpoint buildWhereClause_fuel (fuel : nat) (b : Builder) (whereValue : Z)
  : string * Z * Builder :=
  match fuel with
  | O => ("", whereValue, b)
  | S fuel' =>
      let '(subSB, whereValue, b_prev) :=
        range_wheres (fun innerBuilder n =>
                        fst (buildWhereClause_fuel fuel' innerBuilder n))
                     (tableName b) (wheres b) 0 "" whereValue (prev b) in
      (subSB, whereValue, set_prev b b_prev)
  end.

(** [func (b *Builder) buildWhereClause(whereValue int) (string, int)];
    the third component is the builder with [b.prev] as the loop left it.
    The recursion is given one level more than the nesting depth of
    [b.wheres], which is as deep as it can go (see
    [buildWhereClause_unfold]). *)
Definition buildWhereClause (b : Builder) (whereValue : Z)
  : string * Z * Builder :=
  buildWhereClause_fuel (S (wheres_depth (wheres b))) b whereValue.

(** ** The value extractor *)

Section RecursiveValues.

Variable rec : Builder -> list Value -> list Value.
Variable b_tableName : string.

Fixpoint range_values (blocks : list Block) (values : list Value)
  : list Value :=
  match blocks with
  | [] => values
  | block :: rest =>
      let values :=
        match block with
        | WhereBlock _ w_value _ => (values ++ [w_value])%list
        | _ => values
        end in
      let values :=
        match block with
        | WhereFnBlock fn =>
            let wBuilder := fn_call fn (subBuilder b_tableName) in
            rec wBuilder values
        | _ => values
        end in
      range_values rest values
  end.

End RecursiveValues.

Fixpoint recursiveValues_fuel (fuel : nat) (b : Builder)
         (values : list Value) : list Value :=
  match fuel with
  | O => values
  | S fuel' =>
      range_values (recursiveValues_fuel fuel') (tableName b) (wheres b)
                   values
  end.

Definition recursiveValues (b : Builder) (values : list Value)
  : list Value :=
  recursiveValues_fuel (S (wheres_depth (wheres b))) b values.

Definition Values (b : Builder) : list Value :=
  let values := [] in
  recursiveValues b values.

(** ** The statement renderer *)

(** [for idx, block := range b.orderBys]. *)
Fixpoint range_orderBys (blocks : list OrderByBlock) (idx : nat)
         (b : Builder) : Builder :=
  match blocks with
  | [] => b
  | block :: rest =>
      let b := if (0 <? idx)%nat then WriteString b ", " else b in
      let b := WriteString b (OrderByBlock_String block) in
      range_orderBys rest (S idx) b
  end.

Definition Get (b : Builder) (columns : list string) : Builder :=
  let columns :=
    if (List.length columns =? 0)%nat then (columns ++ ["*"])%list
    else columns in
  let b := WriteString b "SELECT " in
  let b := WriteString b (strings.Join columns ", ") in
  let b := WriteString b " FROM " in
  let b := WriteString b (tableName b) in
  let b :=
    if (0 <? List.length (wheres b))%nat then
      let b := WriteString b " WHERE " in
      let '(whereQuery, _, b) := buildWhereClause b 0 in
      WriteString b whereQuery
    else b in
  let b :=
    if (0 <? List.length (orderBys b))%nat then
      let b := WriteString b " ORDER BY " in
      range_orderBys (orderBys b) 0 b
    else b in
  let b :=
    match limit b with
    | Some block =>
        let b := WriteString b " " in
        WriteString b (LimitBlock_String block)
    | None => b
    end in
  let b :=
    match offset b with
    | Some block =>
        let b := WriteString b " " in
        WriteString b (OffsetBlock_String block)
    | None => b
    end in
  WriteString b ";".

(** ** Notions the statements below are phrased with *)

(** The two loops with the recursive call tied to the functions
    themselves: the bodies of [buildWhereClause] and [recursiveValues]
    (lemmas [buildWhereClause_unfold] and [recursiveValues_unfold]). *)
Definition whereLoop (b_tableName : string) :=
  range_wheres (fun innerBuilder n => fst (buildWhereClause innerBuilder n))
               b_tableName.

Definition valuesLoop (b_tableName : string) :=
  range_values recursiveValues b_tableName.

(** The entries a callback leaves in the builder of its group. *)
Definition group_wheres (b_tableName : string) (fn : list Call)
  : list Block :=
  wheres (fn_call fn (subBuilder b_tableName)).

(** A Comparison entry: column, operator and bound value. *)
Definition Comparison : Type := string * string * Value.

Definition bound_value (c : Comparison) : Value := snd c.

(** The Comparison entries of a list of WHERE entries in document order,
    a group being entered, depth first, at the point where it occurs. *)
Inductive document_order (tn : string)
  : list Block -> list Comparison -> Prop :=
| order_nil : document_order tn [] []
| order_comparison column value op l cs :
    document_order tn l cs ->
    document_order tn (WhereBlock column value op :: l)
                   ((column, op, value) :: cs)
| order_null column l cs :
    document_order tn l cs ->
    document_order tn (WhereNullBlock column :: l) cs
| order_or l cs :
    document_order tn l cs ->
    document_order tn (OrBlock :: l) cs
| order_group fn l ci cs :
    document_order tn (group_wheres tn fn) ci ->
    document_order tn l cs ->
    document_order tn (WhereFnBlock fn :: l) (ci ++ cs)%list.

(** The text [buildWhereClause] returns, and the counter it returns. *)
Definition clauseText (b : Builder) (whereValue : Z) : string :=
  fst (fst (buildWhereClause b whereValue)).

Definition clauseCounter (b : Builder) (whereValue : Z) : Z :=
  snd (fst (buildWhereClause b whereValue)).

(** What [buildWhereClause] writes for a Comparison at a given value of
    the counter. *)
Definition comparisonText (column op : string) (whereValue : Z) : string :=
  strings.ReplaceAll (WhereBlock_String column op) "[WHERE]"
    ("$" ++ fmt.Sprint_int (whereValue + 1)).

(** A string without the placeholder sign. *)
Definition dollar_free (s : string) : Prop :=
  strings.CountByte s "$" = 0%nat.

(** A column or operator text that [buildWhereClause] writes as it is:
    it has no placeholder sign and does not contain the marker that
    [ReplaceAll] replaces. *)
Definition plain (s : string) : Prop :=
  dollar_free s /\ strings.Contains s "[WHERE]" = false.

(** WHERE entries whose columns and operators are plain, those inside
    groups included. *)
Inductive plain_wheres (tn : string) : list Block -> Prop :=
| plain_nil : plain_wheres tn []
| plain_comparison column value op l :
    plain column -> plain op -> plain_wheres tn l ->
    plain_wheres tn (WhereBlock column value op :: l)
| plain_null column l :
    dollar_free column -> plain_wheres tn l ->
    plain_wheres tn (WhereNullBlock column :: l)
| plain_or l :
    plain_wheres tn l -> plain_wheres tn (OrBlock :: l)
| plain_group fn l :
    plain_wheres tn (group_wheres tn fn) -> plain_wheres tn l ->
    plain_wheres tn (WhereFnBlock fn :: l).

(** The comparisons [cs] as they are meant to be written, the first with
    the placeholder number [n + 1], each next one with the next number. *)
Fixpoint numbered (cs : list Comparison) (n : Z) : list string :=
  match cs with
  | [] => []
  | (column, op, _) :: cs' =>
      (column ++ " " ++ op ++ " " ++ "$" ++ fmt.Sprint_int (n + 1))
        :: numbered cs' (n + 1)
  end.

(** [interleaved text fragments]: the text is the fragments, in order,
    with text that has no placeholder sign before, between and after
    them. *)
Inductive interleaved : string -> list string -> Prop :=
| interleaved_nil glue : dollar_free glue -> interleaved glue []
| interleaved_cons glue fragment text fragments :
    dollar_free glue -> interleaved text fragments ->
    interleaved (glue ++ fragment ++ text) (fragment :: fragments).

(** The direction [OrderBy] is meant to store: [DESC] for an input that
    is desc up to the case of its letters, [ASC] otherwise. *)
Definition storedDirection (direction : string) : string :=
  if String.eqb (strings.ToLower direction) "desc" then "DESC" else "ASC".

(** A sequence of [OrderBy] calls, each a column and a direction. *)
Definition OrderBy_calls (b : Builder) (calls : list (string * string))
  : Builder :=
  fold_left (fun b call => OrderBy b (fst call) (snd call)) calls b.

(** [b.prev] when the loop of [buildWhereClause] has run over [l]: the
    last entry of [l], or what it was before for an empty [l]. *)
Definition prevAfter (l : list Block) (b_prev : option Block)
  : option Block :=
  fold_left (fun _ block => Some block) l b_prev.

(** Two entries that differ at most in the bound value of a Comparison. *)
Definition same_text (e e' : Block) : Prop :=
  match e, e' with
  | WhereBlock column _ op, WhereBlock column' _ op' =>
      column = column' /\ op = op'
  | _, _ => e = e'
  end.

(** The calls of a callback that add a WHERE entry to its builder. *)
Definition adds_entry (c : Call) : bool :=
  match c with
  | CallWhere _ [] => false
  | CallOrderBy _ _ => false
  | CallLimit _ => false
  | CallOffset _ => false
  | _ => true
  end.

(** The WHERE entries one call of a callback adds: none or one. *)
Definition call_entries (c : Call) : list Block :=
  wheres (Call_apply (subBuilder "") c).

(** Sample statements, from [bisq_test.go]. *)
Definition sample_orders : Builder :=
  WhereFn (Table "orders")
    [CallWhere "status" [VString "pending"]; CallOr;
     CallWhereFn
       [CallWhere "status" [VString "processing"];
        CallWhere "created_at" [VString ">"; VString "2023-01-01"]]].

Definition sample_orders_comparisons : list Comparison :=
  [("status", "=", VString "pending");
   ("status", "=", VString "processing");
   ("created_at", ">", VString "2023-01-01")].

(** ** The scenarios of [bisq_test.go] *)

Module Scenarios.

Example select_all :
  Builder_String (Get (Table "carriers") []) = "SELECT * FROM carriers;".
Proof. reflexivity. Qed.

Example select_columns :
  Builder_String (Get (Table "carriers") ["id"; "name"])
  = "SELECT id, name FROM carriers;".
Proof. reflexivity. Qed.

Example where_two :
  let b := Get (Where (Where (Table "conversations") "user_id" [VInt 1])
                      "status" [VString "active"]) [] in
  Builder_String b
  = "SELECT * FROM conversations WHERE user_id = $1 AND status = $2;"
  /\ Values b = [VInt 1; VString "active"].
Proof. split; reflexivity. Qed.

Example where_operators :
  let b := Get (Where (Where (Table "total_stats")
                             "date" [VString ">="; VString "2021-01-01"])
                      "date" [VString "<="; VString "2021-01-31"]) [] in
  Builder_String b
  = "SELECT * FROM total_stats WHERE date >= $1 AND date <= $2;"
  /\ Values b = [VString "2021-01-01"; VString "2021-01-31"].
Proof. split; reflexivity. Qed.

Example where_null :
  let b := Get (WhereNull (Where (Table "lead_enrichments")
                                 "import_file_id" [VInt 1])
                          "blacklisted_at") ["lead_id"] in
  Builder_String b
  = "SELECT lead_id FROM lead_enrichments WHERE import_file_id = $1 AND blacklisted_at IS NULL;"
  /\ Values b = [VInt 1].
Proof. split; reflexivity. Qed.

Example group_or :
  let b := Get (WhereFn (Table "leads")
                  [CallWhere "import_file_id" [VInt 1]; CallOr;
                   CallWhereNull "blacklisted_at"]) [] in
  Builder_String b
  = "SELECT * FROM leads WHERE (import_file_id = $1 OR blacklisted_at IS NULL);"
  /\ Values b = [VInt 1].
Proof. split; reflexivity. Qed.

Example offset_limit :
  Builder_String
    (Get (Offset (Limit (OrderBy (Table "users") "created_at" "DESC") 10)
                 20) ["id"; "name"; "email"])
  = "SELECT id, name, email FROM users ORDER BY created_at DESC LIMIT 10 OFFSET 20;".
Proof. reflexivity. Qed.

Example nested_groups :
  let b := Get (WhereFn (Table "orders")
                  [CallWhere "status" [VString "pending"]; CallOr;
                   CallWhereFn
                     [CallWhere "status" [VString "processing"];
                      CallWhere "created_at"
                                [VString ">"; VString "2023-01-01"]]])
               ["id"; "user_id"; "total"] in
  Builder_String b
  = "SELECT id, user_id, total FROM orders WHERE (status = $1 OR (status = $2 AND created_at > $3));"
  /\ List.length (Values b) = 3%nat.
Proof. split; reflexivity. Qed.

Example two_order_bys :
  Builder_String
    (Get (Limit (OrderBy (OrderBy (Table "employees") "department" "ASC")
                         "salary" "DESC") 5)
         ["id"; "name"; "department"; "salary"])
  = "SELECT id, name, department, salary FROM employees ORDER BY department ASC, salary DESC LIMIT 5;".
Proof. reflexivity. Qed.

Example groups_in_sequence :
  let b :=
    Get (Limit
           (OrderBy
              (WhereFn
                 (WhereFn (Where (Table "articles") "published"
                                 [VBool true])
                          [CallWhere "category" [VString "tech"]; CallOr;
                           CallWhere "category" [VString "science"]])
                 [CallWhere "views" [VString ">"; VInt 1000]; CallOr;
                  CallWhere "featured" [VBool true]])
              "published_at" "DESC") 10)
        ["id"; "title"; "category"; "views"] in
  Builder_String b
  = "SELECT id, title, category, views FROM articles WHERE published = $1 AND (category = $2 OR category = $3) AND (views > $4 OR featured = $5) ORDER BY published_at DESC LIMIT 10;"
  /\ Values b = [VBool true; VString "tech"; VString "science";
                 VInt 1000; VBool true].
Proof. split; reflexivity. Qed.

End Scenarios.

(** * Verification *)

(** ** The recursion through callbacks is deep enough *)

Lemma wheres_depth_app l1 l2 :
  wheres_depth (l1 ++ l2) = Nat.max (wheres_depth l1) (wheres_depth l2).
Proof.
  induction l1 as [|x l1 IH]; simpl; [reflexivity|].
  fold (wheres_depth (l1 ++ l2)) (wheres_depth l1). rewrite IH. lia.
Qed.

Lemma Block_depth_In block l :
  In block l -> (Block_depth block <= wheres_depth l)%nat.
Proof.
  induction l as [|x l IH]; simpl; [tauto|].
  fold (wheres_depth l). intros [->|H]; [lia|]. specialize (IH H). lia.
Qed.

Lemma Call_apply_depth b c :
  (wheres_depth (wheres (Call_apply b c))
   <= Nat.max (wheres_depth (wheres b)) (Call_depth c))%nat.
Proof.
  destruct c as [column value| | | | | |]; simpl;
    try rewrite wheres_depth_app; simpl; try lia.
  - destruct value as [|v0 [|v1 tl]]; simpl;
      try rewrite wheres_depth_app; simpl; lia.
  - fold (fn_depth fn). lia.
Qed.

Lemma fn_call_depth fn : forall b,
  (wheres_depth (wheres (fn_call fn b))
   <= Nat.max (wheres_depth (wheres b)) (fn_depth fn))%nat.
Proof.
  unfold fn_call.
  induction fn as [|c fn IH]; intros b; simpl; [lia|].
  fold (fn_depth fn). specialize (IH (Call_apply b c)).
  pose proof (Call_apply_depth b c). lia.
Qed.

Lemma group_wheres_depth tn fn :
  (wheres_depth (group_wheres tn fn) <= fn_depth fn)%nat.
Proof.
  unfold group_wheres. pose proof (fn_call_depth fn (subBuilder tn)) as H.
  simpl in H. lia.
Qed.

Lemma group_wheres_depth_In tn fn l :
  In (WhereFnBlock fn) l ->
  (wheres_depth (group_wheres tn fn) < wheres_depth l)%nat.
Proof.
  intros H. apply Block_depth_In in H. simpl in H.
  pose proof (group_wheres_depth tn fn). lia.
Qed.

Lemma fn_call_tableName fn : forall b,
  tableName (fn_call fn b) = tableName b.
Proof.
  unfold fn_call. induction fn as [|c fn IH]; intros b; simpl; [reflexivity|].
  rewrite IH. destruct c as [column value| | | | | |]; try reflexivity.
  destruct value as [|v0 [|v1 tl]]; reflexivity.
Qed.

(** The loops depend on the recursive call only at the groups of the
    list. *)
Lemma range_wheres_ext rec1 rec2 tn l :
  (forall fn, In (WhereFnBlock fn) l ->
     forall n, rec1 (fn_call fn (subBuilder tn)) n
               = rec2 (fn_call fn (subBuilder tn)) n) ->
  forall idx subSB n p,
    range_wheres rec1 tn l idx subSB n p
    = range_wheres rec2 tn l idx subSB n p.
Proof.
  induction l as [|block l IH]; intros H idx subSB n p; simpl;
    [reflexivity|].
  assert (E : renderBlock rec1 tn block n = renderBlock rec2 tn block n).
  { destruct block; simpl; try reflexivity.
    rewrite (H fn (or_introl eq_refl)). reflexivity. }
  rewrite E. destruct (renderBlock rec2 tn block n) as [innerSB n'].
  apply IH. intros fn Hin. apply H. right. exact Hin.
Qed.

Lemma range_values_ext rec1 rec2 tn l :
  (forall fn, In (WhereFnBlock fn) l ->
     forall vs, rec1 (fn_call fn (subBuilder tn)) vs
                = rec2 (fn_call fn (subBuilder tn)) vs) ->
  forall values,
    range_values rec1 tn l values = range_values rec2 tn l values.
Proof.
  induction l as [|block l IH]; intros H values; simpl; [reflexivity|].
  destruct block; simpl; try (apply IH; intros; apply H; right; assumption).
  rewrite (H fn (or_introl eq_refl)).
  apply IH; intros; apply H; right; assumption.
Qed.

Lemma buildWhereClause_fuel_enough : forall f1 f2 b n,
  (wheres_depth (wheres b) < f1)%nat ->
  (wheres_depth (wheres b) < f2)%nat ->
  buildWhereClause_fuel f1 b n = buildWhereClause_fuel f2 b n.
Proof.
  induction f1 as [|f1 IH]; intros f2 b n H1 H2; [lia|].
  destruct f2 as [|f2]; [lia|]. simpl.
  rewrite (range_wheres_ext
             (fun innerBuilder n => fst (buildWhereClause_fuel f1 innerBuilder n))
             (fun innerBuilder n => fst (buildWhereClause_fuel f2 innerBuilder n)));
    [reflexivity|].
  intros fn Hin k. f_equal.
  pose proof (group_wheres_depth_In (tableName b) fn _ Hin) as Hd.
  unfold group_wheres in Hd. apply IH; lia.
Qed.

Lemma recursiveValues_fuel_enough : forall f1 f2 b values,
  (wheres_depth (wheres b) < f1)%nat ->
  (wheres_depth (wheres b) < f2)%nat ->
  recursiveValues_fuel f1 b values = recursiveValues_fuel f2 b values.
Proof.
  induction f1 as [|f1 IH]; intros f2 b values H1 H2; [lia|].
  destruct f2 as [|f2]; [lia|]. simpl.
  apply range_values_ext. intros fn Hin vs.
  pose proof (group_wheres_depth_In (tableName b) fn _ Hin) as Hd.
  unfold group_wheres in Hd. apply IH; lia.
Qed.

(** [buildWhereClause] satisfies the recursive equation of the source:
    its result is the loop over [b.wheres] in which every group is
    rendered by [buildWhereClause] itself. *)
Lemma buildWhereClause_unfold b n :
  buildWhereClause b n
  = let '(subSB, whereValue, b_prev) :=
      whereLoop (tableName b) (wheres b) 0 "" n (prev b) in
    (subSB, whereValue, set_prev b b_prev).
Proof.
  unfold buildWhereClause at 1, whereLoop. simpl.
  rewrite (range_wheres_ext _
             (fun innerBuilder n => fst (buildWhereClause innerBuilder n)));
    [reflexivity|].
  intros fn Hin k. f_equal. unfold buildWhereClause.
  pose proof (group_wheres_depth_In (tableName b) fn _ Hin) as Hd.
  unfold group_wheres in Hd. apply buildWhereClause_fuel_enough; lia.
Qed.

Lemma recursiveValues_unfold b values :
  recursiveValues b values = valuesLoop (tableName b) (wheres b) values.
Proof.
  unfold recursiveValues at 1, valuesLoop. simpl.
  apply range_values_ext. intros fn Hin vs. unfold recursiveValues.
  pose proof (group_wheres_depth_In (tableName b) fn _ Hin) as Hd.
  unfold group_wheres in Hd. apply recursiveValues_fuel_enough; lia.
Qed.

(** Induction on the nesting of groups: a property of entry lists holds
    of every list once it holds of a list whenever it holds of the entries
    of each of its groups. *)
Lemma wheres_nesting_ind (tn : string) (P : list Block -> Prop) :
  (forall l,
      (forall fn, In (WhereFnBlock fn) l -> P (group_wheres tn fn)) -> P l) ->
  forall l, P l.
Proof.
  intros step l.
  remember (wheres_depth l) as d eqn:Hd.
  assert (Hle : (wheres_depth l <= d)%nat) by lia. clear Hd.
  revert l Hle. induction d as [|d IH]; intros l Hle; apply step;
    intros fn Hin; pose proof (group_wheres_depth_In tn fn l Hin).
  - lia.
  - apply IH. lia.
Qed.

(** ** The loop of [buildWhereClause] *)

Lemma string_app_assoc (s1 s2 s3 : string) :
  (s1 ++ s2) ++ s3 = s1 ++ s2 ++ s3.
Proof.
  induction s1 as [|c s1 IH]; simpl; [reflexivity|]. now rewrite IH.
Qed.

Lemma string_app_nil_r (s : string) : s ++ "" = s.
Proof. induction s as [|c s IH]; simpl; [reflexivity|]. now rewrite IH. Qed.

Section Loop.

Variable rec : Builder -> Z -> string * Z.
Variable tn : string.

(** The loop over a concatenation is the loop over the second list
    started in the state the first one leaves. *)
Lemma range_wheres_app l1 : forall l2 idx subSB n p,
  range_wheres rec tn (l1 ++ l2) idx subSB n p
  = let '(subSB1, n1, p1) := range_wheres rec tn l1 idx subSB n p in
    range_wheres rec tn l2 (idx + List.length l1) subSB1 n1 p1.
Proof.
  induction l1 as [|block l1 IH]; intros l2 idx subSB n p; simpl.
  - now rewrite Nat.add_0_r.
  - destruct (renderBlock rec tn block n) as [innerSB n'].
    rewrite IH. now rewrite Nat.add_succ_r.
Qed.

(** The loop only ever appends to [subSB]. *)
Lemma range_wheres_text l : forall idx subSB n p,
  range_wheres rec tn l idx subSB n p
  = let '(written, n', p') := range_wheres rec tn l idx "" n p in
    (subSB ++ written, n', p').
Proof.
  induction l as [|block l IH]; intros idx subSB n p; simpl.
  - now rewrite string_app_nil_r.
  - destruct (renderBlock rec tn block n) as [innerSB n'].
    rewrite IH.
    rewrite (IH (S idx) (("" ++ joiner idx p block) ++ innerSB)).
    destruct (range_wheres rec tn l (S idx) "" n' (Some block))
      as [[written n''] p''].
    simpl. now rewrite !string_app_assoc.
Qed.

(** Past the first entry the index plays no part. *)
Lemma range_wheres_idx l : forall idx idx' subSB n p,
  (0 < idx)%nat -> (0 < idx')%nat ->
  range_wheres rec tn l idx subSB n p
  = range_wheres rec tn l idx' subSB n p.
Proof.
  induction l as [|block l IH]; intros idx idx' subSB n p H H'; simpl;
    [reflexivity|].
  destruct (renderBlock rec tn block n) as [innerSB n'].
  assert (E : joiner idx p block = joiner idx' p block).
  { unfold joiner. destruct idx, idx'; try lia. reflexivity. }
  rewrite E. apply IH; lia.
Qed.

(** A single entry. *)
Lemma range_wheres_one block idx subSB n p :
  range_wheres rec tn [block] idx subSB n p
  = (subSB ++ joiner idx p block ++ fst (renderBlock rec tn block n),
     snd (renderBlock rec tn block n), Some block).
Proof.
  simpl. destruct (renderBlock rec tn block n) as [innerSB n'].
  simpl. now rewrite string_app_assoc.
Qed.

End Loop.

(** A group is rendered by [buildWhereClause] on the builder its callback
    has filled. *)
Lemma renderBlock_group tn fn n :
  renderBlock (fun innerBuilder n => fst (buildWhereClause innerBuilder n))
              tn (WhereFnBlock fn) n
  = ("(" ++ clauseText (fn_call fn (subBuilder tn)) n ++ ")",
     clauseCounter (fn_call fn (subBuilder tn)) n).
Proof.
  unfold clauseText, clauseCounter. simpl.
  destruct (buildWhereClause (fn_call fn (subBuilder tn)) n) as [[q w] b'].
  reflexivity.
Qed.

Lemma clause_of_loop b n :
  clauseText b n
  = fst (fst (whereLoop (tableName b) (wheres b) 0 "" n (prev b)))
  /\ clauseCounter b n
     = snd (fst (whereLoop (tableName b) (wheres b) 0 "" n (prev b))).
Proof.
  unfold clauseText, clauseCounter. rewrite buildWhereClause_unfold.
  destruct (whereLoop (tableName b) (wheres b) 0 "" n (prev b))
    as [[s k] p]. split; reflexivity.
Qed.

Lemma group_builder tn fn :
  tableName (fn_call fn (subBuilder tn)) = tn
  /\ wheres (fn_call fn (subBuilder tn)) = group_wheres tn fn.
Proof. split; [now rewrite fn_call_tableName | reflexivity]. Qed.

(** ** Document order *)

Lemma document_order_total tn : forall l, exists cs, document_order tn l cs.
Proof.
  apply (wheres_nesting_ind tn). intros l.
  induction l as [|block l IH]; intros Hg.
  - exists []. constructor.
  - destruct IH as [cs Hcs]; [intros fn Hin; apply Hg; now right|].
    destruct block as [column value op|column| |fn].
    + eexists. constructor. eassumption.
    + eexists. constructor. eassumption.
    + eexists. constructor. eassumption.
    + destruct (Hg fn (or_introl eq_refl)) as [ci Hci].
      eexists. constructor; eassumption.
Qed.

Lemma document_order_unique tn l cs :
  document_order tn l cs -> forall cs', document_order tn l cs' -> cs = cs'.
Proof.
  induction 1 as [|column value op l cs H IH|column l cs H IH|l cs H IH
                  |fn l ci cs Hi IHi H IH];
    intros cs' H'; inversion H'; subst; try reflexivity; auto.
  - f_equal. auto.
  - f_equal; auto.
Qed.

Lemma document_order_app tn l1 : forall l2 cs,
  document_order tn (l1 ++ l2) cs ->
  exists cs1 cs2,
    document_order tn l1 cs1 /\ document_order tn l2 cs2
    /\ cs = (cs1 ++ cs2)%list.
Proof.
  induction l1 as [|block l1 IH]; intros l2 cs H; simpl in H.
  - exists [], cs. repeat split; [constructor | assumption].
  - inversion H; subst;
      match goal with
      | Ht : document_order tn (l1 ++ l2)%list _ |- _ =>
          destruct (IH _ _ Ht) as (cs1 & cs2 & Hl1 & Hl2 & ->)
      end.
    + exists ((column, op, value) :: cs1), cs2.
      repeat split; [constructor|..]; assumption || reflexivity.
    + exists cs1, cs2. repeat split; [constructor|..]; assumption || reflexivity.
    + exists cs1, cs2. repeat split; [constructor|..]; assumption || reflexivity.
    + exists (ci ++ cs1)%list, cs2.
      repeat split; [constructor|..]; try assumption.
      now rewrite app_assoc.
Qed.

Lemma document_order_comparison tn column value op l cs :
  document_order tn (WhereBlock column value op :: l) cs ->
  exists cs', cs = (column, op, value) :: cs' /\ document_order tn l cs'.
Proof. inversion 1; subst. eexists. split; [reflexivity | eassumption]. Qed.

Lemma document_order_group tn fn l cs :
  document_order tn (WhereFnBlock fn :: l) cs ->
  exists ci cs',
    cs = (ci ++ cs')%list /\ document_order tn (group_wheres tn fn) ci
    /\ document_order tn l cs'.
Proof.
  inversion 1; subst. do 2 eexists.
  split; [reflexivity | split; eassumption].
Qed.

(** The counter the loop returns has advanced by the number of
    Comparison entries, nested ones included. *)
Lemma whereLoop_counter tn l cs :
  document_order tn l cs ->
  forall idx subSB n p,
    snd (fst (whereLoop tn l idx subSB n p))
    = (n + Z.of_nat (List.length cs))%Z.
Proof.
  unfold whereLoop.
  induction 1 as [|column value op l cs H IH|column l cs H IH|l cs H IH
                  |fn l ci cs Hi IHi H IH];
    intros idx subSB n p.
  - simpl. lia.
  - simpl. rewrite IH. simpl List.length. lia.
  - simpl. now rewrite IH.
  - simpl. now rewrite IH.
  - cbn [range_wheres]. rewrite renderBlock_group.
    rewrite IH. destruct (clause_of_loop (fn_call fn (subBuilder tn)) n)
      as [_ ->].
    destruct (group_builder tn fn) as [-> ->].
    unfold whereLoop. rewrite IHi, length_app. lia.
Qed.

(** The extractor appends the bound values of the Comparison entries in
    document order. *)
Lemma valuesLoop_document_order tn l cs :
  document_order tn l cs ->
  forall values,
    valuesLoop tn l values = (values ++ map bound_value cs)%list.
Proof.
  unfold valuesLoop.
  induction 1 as [|column value op l cs H IH|column l cs H IH|l cs H IH
                  |fn l ci cs Hi IHi H IH];
    intros values.
  - simpl. now rewrite app_nil_r.
  - simpl. rewrite IH. now rewrite <- app_assoc.
  - simpl. now rewrite IH.
  - simpl. now rewrite IH.
  - cbn [range_values]. rewrite IH, recursiveValues_unfold.
    destruct (group_builder tn fn) as [-> ->].
    unfold valuesLoop. rewrite IHi, map_app. now rewrite <- app_assoc.
Qed.

(** The loop at an entry [block] that follows the entries [l1]: the text
    so far, the joiner, the block's own text, and what the remaining
    entries add. *)
Lemma range_wheres_split rec tn l1 block l2 n p :
  range_wheres rec tn (l1 ++ block :: l2) 0 "" n p
  = let '(subSB1, n1, p1) := range_wheres rec tn l1 0 "" n p in
    let '(innerSB, n2) := renderBlock rec tn block n1 in
    let '(written, n3, p3) :=
      range_wheres rec tn l2 (S (List.length l1)) "" n2 (Some block) in
    (subSB1 ++ joiner (List.length l1) p1 block ++ innerSB ++ written,
     n3, p3).
Proof.
  rewrite range_wheres_app.
  destruct (range_wheres rec tn l1 0 "" n p) as [[subSB1 n1] p1].
  cbn [range_wheres Nat.add].
  destruct (renderBlock rec tn block n1) as [innerSB n2].
  rewrite range_wheres_text.
  destruct (range_wheres rec tn l2 (S (List.length l1)) "" n2 (Some block))
    as [[written n3] p3].
  now rewrite !string_app_assoc.
Qed.

(** After a leading OR marker the loop writes [" OR "] in front of the
    next entry. *)
Lemma whereLoop_leading_marker tn block l n p p' :
  fst (whereLoop tn (OrBlock :: block :: l) 0 "" n p)
  = (" OR " ++ fst (fst (whereLoop tn (block :: l) 0 "" n p')),
     snd (fst (whereLoop tn (block :: l) 0 "" n p'))).
Proof.
  unfold whereLoop. cbn [range_wheres renderBlock].
  destruct (renderBlock _ tn block n) as [innerSB n'].
  rewrite (range_wheres_text _ _ l 2).
  rewrite (range_wheres_text _ _ l 1).
  rewrite (range_wheres_idx _ _ l 2 1) by lia.
  destruct (range_wheres _ tn l 1 "" n' (Some block)) as [[written n3] p3].
  reflexivity.
Qed.

Lemma sample_orders_document_order :
  document_order (tableName sample_orders) (wheres sample_orders)
                 sample_orders_comparisons.
Proof.
  apply (order_group "orders" _ [] sample_orders_comparisons []);
    [|constructor].
  vm_compute. constructor. constructor.
  apply (order_group "orders" _ []
           [("status", "=", VString "processing");
            ("created_at", ">", VString "2023-01-01")] []);
    [|constructor].
  vm_compute. repeat constructor.
Qed.

(** ** The loops of [Get] *)

Lemma WriteString_WriteString b s t :
  WriteString (WriteString b s) t = WriteString b (s ++ t).
Proof. unfold WriteString. simpl. now rewrite string_app_assoc. Qed.

Lemma concat_cons sep x l :
  String.concat sep (x :: l)
  = x ++ match l with [] => "" | _ :: _ => sep ++ String.concat sep l end.
Proof. destruct l; simpl; [now rewrite string_app_nil_r | reflexivity]. Qed.

(** The loop over [b.orderBys] from index [idx > 0] writes every entry
    with [", "] in front. *)
Lemma range_orderBys_rest l : forall idx b,
  (0 < idx)%nat ->
  range_orderBys l idx b
  = WriteString b (match l with
                   | [] => ""
                   | _ :: _ =>
                       ", " ++ String.concat ", " (map OrderByBlock_String l)
                   end).
Proof.
  induction l as [|o l IH]; intros idx b Hidx.
  - unfold WriteString. simpl. rewrite string_app_nil_r. now destruct b.
  - cbn [range_orderBys]. destruct idx as [|idx]; [lia|].
    cbn [Nat.ltb Nat.leb]. rewrite IH by lia.
    rewrite !WriteString_WriteString. f_equal.
    cbn [map]. rewrite concat_cons. destruct l; reflexivity.
Qed.

(** From index 0 it writes the entries joined with [", "]. *)
Lemma range_orderBys_Join l b :
  range_orderBys l 0 b
  = WriteString b (strings.Join (map OrderByBlock_String l) ", ").
Proof.
  unfold strings.Join. destruct l as [|o l].
  - unfold WriteString. simpl. rewrite string_app_nil_r. now destruct b.
  - cbn [range_orderBys Nat.ltb Nat.leb]. rewrite range_orderBys_rest by lia.
    rewrite WriteString_WriteString. f_equal.
    cbn [map]. rewrite concat_cons. destruct l; reflexivity.
Qed.

(** Running [Get] on a builder whose fields are known. *)
Ltac Get_steps :=
  repeat first
    [ rewrite buildWhereClause_unfold
    | rewrite range_orderBys_Join
    | progress cbv [WriteString set_prev tableName wheres prev limit offset
                    orderBys query List.length Nat.ltb Nat.leb Nat.eqb app
                    fst snd] ].

(** What [Get] writes and what it leaves in the other fields. *)
Lemma Get_query (b : Builder) (columns : list string) :
  query (Get b columns)
  = query b
    ++ "SELECT "
    ++ match columns with
       | [] => "*"
       | _ :: _ => strings.Join columns ", "
       end
    ++ " FROM " ++ tableName b
    ++ match wheres b with
       | [] => ""
       | _ :: _ => " WHERE " ++ clauseText b 0
       end
    ++ match orderBys b with
       | [] => ""
       | _ :: _ =>
           " ORDER BY "
           ++ strings.Join (map OrderByBlock_String (orderBys b)) ", "
       end
    ++ match limit b with
       | None => ""
       | Some block => " LIMIT " ++ fmt.Sprint_int (lb_limit block)
       end
    ++ match offset b with
       | None => ""
       | Some block => " OFFSET " ++ fmt.Sprint_int (ofb_offset block)
       end
    ++ ";".
Proof.
  destruct (clause_of_loop b 0) as [Ht _]. rewrite Ht. clear Ht.
  destruct b as [q tn ws lim off pr obs].
  destruct columns as [|c columns], ws as [|w ws], obs as [|o obs],
      lim as [lim|], off as [off|];
    unfold Get; cbv zeta; Get_steps;
    try (destruct (whereLoop tn (w :: ws) 0 "" 0 pr) as [[whereQuery n] p];
         Get_steps);
    unfold LimitBlock_String, OffsetBlock_String;
    change (strings.Join ["*"] ", ") with "*";
    rewrite ?string_app_assoc; reflexivity.
Qed.

Lemma Get_fields (b : Builder) (columns : list string) :
  tableName (Get b columns) = tableName b
  /\ wheres (Get b columns) = wheres b
  /\ limit (Get b columns) = limit b
  /\ offset (Get b columns) = offset b
  /\ orderBys (Get b columns) = orderBys b.
Proof.
  destruct b as [q tn ws lim off pr obs].
  destruct columns as [|c columns], ws as [|w ws], obs as [|o obs],
      lim as [lim|], off as [off|];
    unfold Get; cbv zeta; Get_steps;
    try (destruct (whereLoop tn (w :: ws) 0 "" 0 pr) as [[whereQuery n] p];
         Get_steps);
    repeat split; reflexivity.
Qed.

(** ** Order-by entries *)

Lemma upper_lower_byte (c : ascii) :
  strings.upper_byte (strings.lower_byte c) = strings.upper_byte c.
Proof.
  destruct c as [[] [] [] [] [] [] [] []]; vm_compute; reflexivity.
Qed.

Lemma ToUpper_ToLower (s : string) :
  strings.ToUpper (strings.ToLower s) = strings.ToUpper s.
Proof.
  unfold strings.ToUpper, strings.ToLower.
  induction s as [|c s IH]; cbn [strings.map_bytes]; [reflexivity|].
  now rewrite IH, upper_lower_byte.
Qed.

Lemma OrderBy_stores b column direction :
  OrderBy b column direction
  = mkBuilder (query b) (tableName b) (wheres b) (limit b) (offset b)
              (prev b)
              (orderBys b
               ++ [mkOrderByBlock column (storedDirection direction)]).
Proof.
  unfold OrderBy, storedDirection. do 3 f_equal.
  destruct (String.eqb (strings.ToLower direction) "asc") eqn:Ea;
    destruct (String.eqb (strings.ToLower direction) "desc") eqn:Ed;
    cbn [negb andb]; try reflexivity.
  - apply String.eqb_eq in Ea. apply String.eqb_eq in Ed. congruence.
  - apply String.eqb_eq in Ea.
    now rewrite <- ToUpper_ToLower, Ea.
  - apply String.eqb_eq in Ed.
    now rewrite <- ToUpper_ToLower, Ed.
Qed.

Lemma OrderBy_calls_stores calls : forall b,
  OrderBy_calls b calls
  = mkBuilder (query b) (tableName b) (wheres b) (limit b) (offset b)
              (prev b)
              (orderBys b
               ++ map (fun call =>
                         mkOrderByBlock (fst call)
                                        (storedDirection (snd call)))
                      calls).
Proof.
  unfold OrderBy_calls.
  induction calls as [|call calls IH]; intros b; cbn [fold_left map].
  - rewrite app_nil_r. now destruct b.
  - rewrite IH, OrderBy_stores. cbn [query tableName wheres limit offset
                                     prev orderBys].
    now rewrite <- app_assoc.
Qed.

(** ** Counting placeholders *)

Lemma CountByte_app s t c :
  strings.CountByte (s ++ t) c
  = (strings.CountByte s c + strings.CountByte t c)%nat.
Proof.
  induction s as [|d s IH]; cbn [strings.CountByte append]; [reflexivity|].
  rewrite IH. lia.
Qed.

Lemma uint_dollar_free d : dollar_free (NilEmpty.string_of_uint d).
Proof. unfold dollar_free. induction d; cbn; assumption || reflexivity. Qed.

Lemma Sprint_int_dollar_free n : dollar_free (fmt.Sprint_int n).
Proof.
  unfold fmt.Sprint_int, dollar_free.
  destruct (Z.to_int n) as [d|d]; cbn [NilZero.string_of_int];
    unfold NilZero.string_of_uint;
    destruct d; try reflexivity; cbn [strings.CountByte Ascii.eqb Bool.eqb];
    apply (uint_dollar_free (_ d)) || apply uint_dollar_free.
Qed.

Lemma HasPrefix_nil s : strings.HasPrefix s "" = true.
Proof. now destruct s. Qed.

(** An occurrence of [old], which has no space, in front of a space lies
    before that space. *)
Lemma HasPrefix_before_space old : forall u w,
  strings.CountByte old " " = 0%nat ->
  strings.HasPrefix (u ++ String " " w) old = true ->
  strings.HasPrefix u old = true.
Proof.
  unfold strings.HasPrefix.
  induction old as [|x old IH]; intros u w Hsp H.
  - apply HasPrefix_nil.
  - cbn [strings.CountByte] in Hsp.
    destruct u as [|a u]; cbn [append prefix] in *.
    + destruct (ascii_dec x " ") as [->|]; [discriminate Hsp | exact H].
    + destruct (ascii_dec x a); [|exact H].
      apply (IH u w); [|exact H].
      destruct (Ascii.eqb x " "); [discriminate Hsp | exact Hsp].
Qed.

(** [ReplaceAll] copies a text that does not contain [old] when a space
    follows it. *)
Lemma replace_from_copies old new : forall u w,
  strings.CountByte old " " = 0%nat ->
  strings.Contains u old = false ->
  strings.replace_from (u ++ String " " w) old new 0
  = u ++ strings.replace_from (String " " w) old new 0.
Proof.
  induction u as [|a u IH]; intros w Hsp Hc; [reflexivity|].
  cbn [strings.Contains] in Hc. apply orb_false_iff in Hc.
  destruct Hc as [Hp Hc].
  cbn [append]. cbn [strings.replace_from].
  destruct (strings.HasPrefix (String a (u ++ String " " w)) old) eqn:E.
  - apply (HasPrefix_before_space old (String a u) w Hsp) in E. congruence.
  - now rewrite IH.
Qed.

(** For a plain column and operator the comparison is written as column,
    operator and placeholder, separated by spaces. *)
Lemma comparisonText_plain column op n :
  strings.Contains column "[WHERE]" = false ->
  strings.Contains op "[WHERE]" = false ->
  comparisonText column op n
  = column ++ " " ++ op ++ " " ++ "$" ++ fmt.Sprint_int (n + 1).
Proof.
  intros Hc Ho. unfold comparisonText, WhereBlock_String, strings.ReplaceAll.
  change (column ++ " " ++ op ++ " " ++ "[WHERE]")
    with (column ++ String " " (op ++ String " " "[WHERE]")).
  rewrite replace_from_copies by (reflexivity || assumption).
  f_equal. cbn [strings.replace_from].
  change (strings.HasPrefix (String " " (op ++ String " " "[WHERE]"))
                            "[WHERE]") with false.
  cbv iota. cbn [append]. f_equal.
  rewrite replace_from_copies by (reflexivity || assumption).
  f_equal. vm_compute strings.HasPrefix.
  cbn. now rewrite string_app_nil_r.
Qed.

Lemma comparisonText_dollars column op n :
  plain column -> plain op ->
  strings.CountByte (comparisonText column op n) "$" = 1%nat.
Proof.
  intros [Hc Hc'] [Ho Ho']. rewrite comparisonText_plain by assumption.
  rewrite !CountByte_app, Hc, Ho.
  cbn [strings.CountByte Ascii.eqb Bool.eqb append].
  pose proof (Sprint_int_dollar_free (n + 1)) as H. unfold dollar_free in H.
  cbn. rewrite H. reflexivity.
Qed.

Lemma joiner_dollar_free idx p block : dollar_free (joiner idx p block).
Proof.
  unfold joiner, dollar_free.
  destruct (0 <? idx)%nat, (is_OrBlock p), (is_OrBlock (Some block));
    reflexivity.
Qed.

Lemma plain_wheres_group tn fn l :
  plain_wheres tn (WhereFnBlock fn :: l) ->
  plain_wheres tn (group_wheres tn fn) /\ plain_wheres tn l.
Proof. inversion 1; subst. split; assumption. Qed.

(** The clause of plain entries has one placeholder sign for each
    Comparison. *)
Lemma whereLoop_dollars tn l cs :
  document_order tn l cs ->
  plain_wheres tn l ->
  forall idx subSB n p,
    strings.CountByte (fst (fst (whereLoop tn l idx subSB n p))) "$"
    = (strings.CountByte subSB "$" + List.length cs)%nat.
Proof.
  unfold whereLoop.
  induction 1 as [|column value op l cs H IH|column l cs H IH|l cs H IH
                  |fn l ci cs Hi IHi H IH];
    intros Hp idx subSB n p.
  - cbn. lia.
  - inversion Hp; subst. cbn [range_wheres renderBlock].
    rewrite IH by assumption. rewrite !CountByte_app.
    fold (comparisonText column op n).
    rewrite comparisonText_dollars by assumption.
    rewrite joiner_dollar_free. cbn [List.length]. lia.
  - inversion Hp; subst. cbn [range_wheres renderBlock].
    rewrite IH by assumption. rewrite !CountByte_app.
    rewrite joiner_dollar_free. unfold WhereNullBlock_String.
    rewrite CountByte_app.
    match goal with Hd : dollar_free column |- _ => rewrite Hd end.
    cbn. lia.
  - inversion Hp; subst. cbn [range_wheres renderBlock].
    rewrite IH by assumption. rewrite !CountByte_app.
    rewrite joiner_dollar_free. cbn. lia.
  - apply plain_wheres_group in Hp. destruct Hp as [Hpi Hp].
    cbn [range_wheres]. rewrite renderBlock_group.
    rewrite IH by assumption. rewrite !CountByte_app.
    rewrite joiner_dollar_free.
    destruct (clause_of_loop (fn_call fn (subBuilder tn)) n) as [-> _].
    destruct (group_builder tn fn) as [-> ->].
    unfold whereLoop. rewrite IHi by assumption.
    rewrite length_app. cbn. lia.
Qed.

Lemma concat_dollar_free sep l :
  dollar_free sep -> Forall dollar_free l ->
  dollar_free (String.concat sep l).
Proof.
  unfold dollar_free. intros Hsep Hl.
  induction Hl as [|x l Hx Hl IH]; [reflexivity|].
  rewrite concat_cons, CountByte_app, Hx.
  destruct l; [reflexivity|]. now rewrite CountByte_app, Hsep, IH.
Qed.

Lemma Values_of_fields b b' :
  tableName b' = tableName b -> wheres b' = wheres b ->
  Values b' = Values b.
Proof.
  intros Ht Hw. unfold Values. rewrite !recursiveValues_unfold.
  now rewrite Ht, Hw.
Qed.

(** * The claims *)

(** ** Placeholders and bound values *)

(** C1.  Let [cs] be the Comparison entries of a builder in document
    order, groups entered depth first where they occur.  Then [Values]
    returns the bound values of [cs] in that order, and
    [buildWhereClause], started with the counter at [whereValue], returns
    the counter advanced by the length of [cs].  A Comparison entry that
    has the comparisons [cs1] before it is the entry of [cs] at index
    [length cs1], its bound value is the element of [Values] at that
    index, and its text is written with the placeholder number
    [whereValue + length cs1 + 1].  A group that has [cs1] before it is
    assembled, by [buildWhereClause] on the builder its callback filled,
    with the counter at [whereValue + length cs1], and its comparisons
    occupy the positions of [cs] from [length cs1] on; so the same holds
    of the entries inside it.  For [Get], which starts the counter at 0,
    the n-th Comparison is written with the placeholder of number n and
    the n-th element of [Values] is its bound value. *)
Theorem placeholder_numbers_follow_document_order
        (b : Builder) (whereValue : Z) (cs : list Comparison) :
  document_order (tableName b) (wheres b) cs ->
  Values b = map bound_value cs
  /\ clauseCounter b whereValue = (whereValue + Z.of_nat (List.length cs))%Z
  /\ (forall l1 column value op l2 cs1,
        wheres b = (l1 ++ WhereBlock column value op :: l2)%list ->
        document_order (tableName b) l1 cs1 ->
        let n := List.length cs1 in
        let block := WhereBlock column value op in
        nth_error cs n = Some (column, op, value)
        /\ nth_error (Values b) n = Some value
        /\ clauseText b whereValue
           = fst (fst (whereLoop (tableName b) l1 0 "" whereValue (prev b)))
             ++ joiner (List.length l1)
                       (snd (whereLoop (tableName b) l1 0 "" whereValue
                                       (prev b)))
                       block
             ++ strings.ReplaceAll (WhereBlock_String column op) "[WHERE]"
                  ("$" ++ fmt.Sprint_int (whereValue + Z.of_nat n + 1))
             ++ fst (fst (whereLoop (tableName b) l2 (S (List.length l1)) ""
                                    (whereValue + Z.of_nat n + 1)
                                    (Some block))))
  /\ (forall l1 fn l2 cs1,
        wheres b = (l1 ++ WhereFnBlock fn :: l2)%list ->
        document_order (tableName b) l1 cs1 ->
        let n := List.length cs1 in
        let innerBuilder := fn_call fn (subBuilder (tableName b)) in
        exists ci cs2,
          document_order (tableName innerBuilder) (wheres innerBuilder) ci
          /\ cs = (cs1 ++ ci ++ cs2)%list
          /\ clauseText b whereValue
             = fst (fst (whereLoop (tableName b) l1 0 "" whereValue
                                   (prev b)))
               ++ joiner (List.length l1)
                         (snd (whereLoop (tableName b) l1 0 "" whereValue
                                         (prev b)))
                         (WhereFnBlock fn)
               ++ "("
               ++ clauseText innerBuilder (whereValue + Z.of_nat n)
               ++ ")"
               ++ fst (fst (whereLoop (tableName b) l2
                              (S (List.length l1)) ""
                              (whereValue + Z.of_nat n
                               + Z.of_nat (List.length ci))
                              (Some (WhereFnBlock fn))))).
Proof.
  intros Hcs.
  assert (HV : Values b = map bound_value cs).
  { unfold Values. rewrite recursiveValues_unfold.
    now rewrite (valuesLoop_document_order _ _ _ Hcs). }
  destruct (clause_of_loop b whereValue) as [Htext Hcounter].
  split; [exact HV|]. split.
  { rewrite Hcounter. now apply whereLoop_counter. }
  split.
  - intros l1 column value op l2 cs1 Hw H1 n block.
    rewrite Hw in Hcs.
    destruct (document_order_app _ _ _ _ Hcs) as (cs1' & cs2 & H1' & H2 & ->).
    rewrite (document_order_unique _ _ _ H1' _ H1) in *. clear H1'.
    destruct (document_order_comparison _ _ _ _ _ _ H2) as (cs0 & -> & H3).
    subst n block.
    assert (Hn : nth_error (cs1 ++ (column, op, value) :: cs0)%list
                           (List.length cs1)
                 = Some (column, op, value)).
    { rewrite nth_error_app2 by lia. now rewrite Nat.sub_diag. }
    split; [exact Hn|]. split.
    { rewrite HV. now rewrite nth_error_map, Hn. }
    rewrite Htext, Hw. unfold whereLoop. rewrite range_wheres_split.
    pose proof (whereLoop_counter _ _ _ H1 0%nat "" whereValue (prev b))
      as Hk.
    unfold whereLoop in Hk.
    destruct (range_wheres _ (tableName b) l1 0 "" whereValue (prev b))
      as [[subSB1 n1] p1].
    simpl in Hk. subst n1. cbn [renderBlock].
    destruct (range_wheres _ (tableName b) l2 (S (List.length l1)) ""
                (whereValue + Z.of_nat (List.length cs1) + 1)
                (Some (WhereBlock column value op)))
      as [[written n3] p3].
    cbn [fst snd]. reflexivity.
  - intros l1 fn l2 cs1 Hw H1 n innerBuilder.
    rewrite Hw in Hcs.
    destruct (document_order_app _ _ _ _ Hcs) as (cs1' & cs2 & H1' & H2 & ->).
    rewrite (document_order_unique _ _ _ H1' _ H1) in *. clear H1'.
    destruct (document_order_group _ _ _ _ H2) as (ci & cs0 & -> & Hi & H3).
    destruct (group_builder (tableName b) fn) as [Etn Ewh].
    subst n.
    exists ci, cs0. split.
    { unfold innerBuilder. now rewrite Etn, Ewh. }
    split; [reflexivity|].
    rewrite Htext, Hw. unfold whereLoop. rewrite range_wheres_split.
    pose proof (whereLoop_counter _ _ _ H1 0%nat "" whereValue (prev b))
      as Hk.
    unfold whereLoop in Hk.
    destruct (range_wheres _ (tableName b) l1 0 "" whereValue (prev b))
      as [[subSB1 n1] p1].
    simpl in Hk. subst n1. rewrite renderBlock_group.
    fold innerBuilder.
    set (n := List.length cs1).
    assert (Hc : clauseCounter innerBuilder (whereValue + Z.of_nat n)
                 = (whereValue + Z.of_nat n + Z.of_nat (List.length ci))%Z).
    { destruct (clause_of_loop innerBuilder (whereValue + Z.of_nat n))
        as [_ ->].
      unfold innerBuilder. rewrite Etn, Ewh. now apply whereLoop_counter. }
    rewrite Hc.
    destruct (range_wheres _ (tableName b) l2 (S (List.length l1)) ""
                (whereValue + Z.of_nat n + Z.of_nat (List.length ci))
                (Some (WhereFnBlock fn)))
      as [[written n3] p3].
    cbn [fst snd]. now rewrite !string_app_assoc.
Qed.

Lemma placeholder_numbers_follow_document_order_witness :
  document_order (tableName sample_orders) (wheres sample_orders)
                 sample_orders_comparisons
  /\ Values sample_orders = map bound_value sample_orders_comparisons
  /\ clauseCounter sample_orders 0 = 3%Z.
Proof.
  split; [exact sample_orders_document_order|].
  destruct (placeholder_numbers_follow_document_order
              sample_orders 0 sample_orders_comparisons
              sample_orders_document_order) as (HV & HC & _).
  split; [exact HV | exact HC].
Defined.

(** ** OR markers *)

(** C2 (the code departs from the claim).  With an OR marker as the
    first WHERE entry, [Get] writes [" OR "] between [" WHERE "] and the
    first comparison; without the marker it does not. *)
Theorem leading_or_marker_writes_joiner :
  Builder_String (Get (Where (Or (Table "t")) "a" [VInt 1]) [])
  = "SELECT * FROM t WHERE  OR a = $1;"
  /\ Builder_String (Get (Where (Table "t") "a" [VInt 1]) [])
     = "SELECT * FROM t WHERE a = $1;"
  /\ clauseText (Where (Or (Table "t")) "a" [VInt 1]) 0 = " OR a = $1"
  /\ clauseText (Where (Table "t") "a" [VInt 1]) 0 = "a = $1".
Proof. repeat split; reflexivity. Qed.

(** C3.  When the WHERE entries hold a Comparison, then one OR marker,
    then a Comparison, the clause has the text of the first comparison,
    then [" OR "], then the text of the second; the list without the
    marker gives the same clause with [" AND "] there, so the text before
    and after that junction is what it is without the marker.  The first
    comparison is written with the placeholder number [n + 1] and the
    second with [n + 2], where [n] is the counter when the loop reaches
    the first: the marker takes no number. *)
Theorem or_marker_between_comparisons
        (b : Builder) (whereValue : Z) (l1 l2 : list Block)
        (column1 op1 column2 op2 : string) (value1 value2 : Value) :
  let first := WhereBlock column1 value1 op1 in
  let second := WhereBlock column2 value2 op2 in
  wheres b = (l1 ++ first :: OrBlock :: second :: l2)%list ->
  let tn := tableName b in
  let before := whereLoop tn l1 0 "" whereValue (prev b) in
  let n := snd (fst before) in
  let after := whereLoop tn l2 1 "" (n + 2) (Some second) in
  let upToFirst :=
    fst (fst before) ++ joiner (List.length l1) (snd before) first
    ++ strings.ReplaceAll (WhereBlock_String column1 op1) "[WHERE]"
         ("$" ++ fmt.Sprint_int (n + 1)) in
  let secondText :=
    strings.ReplaceAll (WhereBlock_String column2 op2) "[WHERE]"
      ("$" ++ fmt.Sprint_int (n + 2)) in
  clauseText b whereValue
  = upToFirst ++ " OR " ++ secondText ++ fst (fst after)
  /\ clauseText (set_wheres b (l1 ++ first :: second :: l2)) whereValue
     = upToFirst ++ " AND " ++ secondText ++ fst (fst after)
  /\ clauseCounter b whereValue = snd (fst after)
  /\ clauseCounter (set_wheres b (l1 ++ first :: second :: l2)) whereValue
     = snd (fst after).
Proof.
  intros first second Hw tn before n after upToFirst secondText.
  destruct (clause_of_loop b whereValue) as [Ht Hc].
  destruct (clause_of_loop (set_wheres b (l1 ++ first :: second :: l2))
                           whereValue) as [Ht' Hc'].
  rewrite Ht, Hc, Ht', Hc', Hw. cbn [tableName wheres prev set_wheres].
  subst upToFirst secondText after n before tn first second.
  unfold whereLoop. rewrite !range_wheres_split.
  destruct (range_wheres _ (tableName b) l1 0 "" whereValue (prev b))
    as [[subSB1 n1] p1].
  cbn [fst snd renderBlock range_wheres].
  rewrite (range_wheres_text _ _ l2 (S (S (S (List.length l1))))).
  rewrite (range_wheres_text _ _ l2 (S (S (List.length l1)))).
  rewrite (range_wheres_idx _ _ l2 (S (S (S (List.length l1)))) 1)
    by lia.
  rewrite (range_wheres_idx _ _ l2 (S (S (List.length l1))) 1) by lia.
  replace (n1 + 1 + 1)%Z with (n1 + 2)%Z by lia.
  destruct (range_wheres _ (tableName b) l2 1 "" (n1 + 2)%Z
              (Some (WhereBlock column2 value2 op2)))
    as [[written n3] p3].
  cbn [fst snd].
  change (joiner (S (List.length l1)) (Some (WhereBlock column1 value1 op1))
                 OrBlock) with "".
  change (joiner (S (S (List.length l1))) (Some OrBlock)
                 (WhereBlock column2 value2 op2)) with " OR ".
  change (joiner (S (List.length l1)) (Some (WhereBlock column1 value1 op1))
                 (WhereBlock column2 value2 op2)) with " AND ".
  repeat split; rewrite ?string_app_assoc; reflexivity.
Qed.

Lemma or_marker_between_comparisons_witness :
  let b := WhereNull (Where (Or (Where (WhereNull (Table "t") "x")
                                       "a" [VInt 1]))
                            "b" [VString ">"; VInt 2]) "z" in
  wheres b = ([WhereNullBlock "x"]
              ++ WhereBlock "a" (VInt 1) "=" :: OrBlock
                 :: WhereBlock "b" (VInt 2) ">" :: [WhereNullBlock "z"])%list
  /\ clauseText b 0 = "x IS NULL AND a = $1 OR b > $2 AND z IS NULL"
  /\ clauseText (set_wheres b [WhereNullBlock "x";
                               WhereBlock "a" (VInt 1) "=";
                               WhereBlock "b" (VInt 2) ">";
                               WhereNullBlock "z"]) 0
     = "x IS NULL AND a = $1 AND b > $2 AND z IS NULL".
Proof.
  intros b. split; [reflexivity|].
  pose proof (or_marker_between_comparisons
                b 0 [WhereNullBlock "x"] [WhereNullBlock "z"]
                "a" "=" "b" ">" (VInt 1) (VInt 2) eq_refl) as H.
  split; [exact (proj1 H) | exact (proj1 (proj2 H))].
Defined.

(** ** Groups *)

(** C4.  For a group entry that follows the entries [l1]: its own text
    is an opening parenthesis, the clause [buildWhereClause] returns for
    the builder the callback filled (a new builder with the parent's
    table name), and a closing parenthesis; that recursive call is started
    with the counter the parent has when it reaches the group; and the
    parent goes on, for the entries after the group, with the counter the
    recursive call returned.  With [cs1] the comparisons before the group
    and [ci] those inside it, the group starts at
    [whereValue + length cs1] and the parent continues at
    [whereValue + length cs1 + length ci]. *)
Theorem group_is_parenthesised_and_contiguous
        (b : Builder) (whereValue : Z) (l1 l2 : list Block)
        (fn : list Call) :
  wheres b = (l1 ++ WhereFnBlock fn :: l2)%list ->
  let tn := tableName b in
  let innerBuilder := fn_call fn (subBuilder tn) in
  let before := whereLoop tn l1 0 "" whereValue (prev b) in
  let current := snd (fst before) in
  let returned := clauseCounter innerBuilder current in
  let after :=
    whereLoop tn l2 (S (List.length l1)) "" returned
              (Some (WhereFnBlock fn)) in
  renderBlock (fun innerBuilder n => fst (buildWhereClause innerBuilder n))
              tn (WhereFnBlock fn) current
  = ("(" ++ clauseText innerBuilder current ++ ")", returned)
  /\ clauseText b whereValue
     = fst (fst before)
       ++ joiner (List.length l1) (snd before) (WhereFnBlock fn)
       ++ "(" ++ clauseText innerBuilder current ++ ")"
       ++ fst (fst after)
  /\ clauseCounter b whereValue = snd (fst after)
  /\ tableName innerBuilder = tn
  /\ (forall cs1 ci,
        document_order tn l1 cs1 ->
        document_order tn (wheres innerBuilder) ci ->
        current = (whereValue + Z.of_nat (List.length cs1))%Z
        /\ returned = (current + Z.of_nat (List.length ci))%Z).
Proof.
  intros Hw tn innerBuilder before current returned after.
  destruct (clause_of_loop b whereValue) as [Ht Hc].
  destruct (group_builder tn fn) as [Etn Ewh].
  split; [apply renderBlock_group|].
  rewrite Ht, Hc, Hw. fold tn.
  subst after returned current before innerBuilder.
  unfold whereLoop. rewrite range_wheres_split.
  pose proof (fun cs1 H1 =>
                whereLoop_counter tn l1 cs1 H1 0%nat "" whereValue (prev b))
    as Hk.
  unfold whereLoop in Hk.
  destruct (range_wheres _ tn l1 0 "" whereValue (prev b))
    as [[subSB1 n1] p1].
  rewrite renderBlock_group. cbn [fst snd] in *.
  destruct (range_wheres _ tn l2 (S (List.length l1)) ""
              (clauseCounter (fn_call fn (subBuilder tn)) n1)
              (Some (WhereFnBlock fn))) as [[written n3] p3].
  cbn [fst snd].
  split; [now rewrite !string_app_assoc|].
  split; [reflexivity|]. split; [exact Etn|].
  intros cs1 ci H1 Hi. split; [now apply Hk|].
  destruct (clause_of_loop (fn_call fn (subBuilder tn)) n1) as [_ ->].
  rewrite Etn. now apply whereLoop_counter.
Qed.

Lemma group_is_parenthesised_and_contiguous_witness :
  let b := Where (WhereFn (Where (Table "articles") "published" [VBool true])
                          [CallWhere "category" [VString "tech"]; CallOr;
                           CallWhere "category" [VString "science"]])
                 "views" [VString ">"; VInt 1000] in
  let fn := [CallWhere "category" [VString "tech"]; CallOr;
             CallWhere "category" [VString "science"]] in
  wheres b = ([WhereBlock "published" (VBool true) "="]
              ++ WhereFnBlock fn
                 :: [WhereBlock "views" (VInt 1000) ">"])%list
  /\ clauseText b 0
     = "published = $1 AND (category = $2 OR category = $3) AND views > $4"
  /\ clauseText (fn_call fn (subBuilder "articles")) 1
     = "category = $2 OR category = $3"
  /\ clauseCounter b 0 = 4%Z.
Proof.
  intros b fn. split; [reflexivity|].
  pose proof (group_is_parenthesised_and_contiguous
                b 0 [WhereBlock "published" (VBool true) "="]
                [WhereBlock "views" (VInt 1000) ">"] fn eq_refl) as H.
  split; [exact (proj1 (proj2 H))|].
  split; [reflexivity | exact (proj1 (proj2 (proj2 H)))].
Defined.

(** ** Counting placeholders in the text *)

(** C5, as the code has it.  For a statement that has not been rendered
    before, whose table name, selected columns and order-by entries have
    no placeholder sign, and whose WHERE columns and operators, those
    inside groups included, have none and do not contain the text
    [[WHERE]], the number of placeholder signs in the text [Get] renders
    is the number of bound values [Values] returns. *)
Theorem placeholder_count_equals_value_count
        (b : Builder) (columns : list string) :
  query b = "" ->
  dollar_free (tableName b) ->
  Forall dollar_free columns ->
  plain_wheres (tableName b) (wheres b) ->
  Forall (fun o => dollar_free (ob_column o) /\ dollar_free (ob_direction o))
         (orderBys b) ->
  strings.CountByte (Builder_String (Get b columns)) "$"
  = List.length (Values (Get b columns)).
Proof.
  intros Hq Htn Hcols Hplain Hobs.
  destruct (Get_fields b columns) as (Ft & Fw & _).
  rewrite (Values_of_fields b (Get b columns) Ft Fw).
  destruct (document_order_total (tableName b) (wheres b)) as [cs Hcs].
  unfold Values. rewrite recursiveValues_unfold.
  rewrite (valuesLoop_document_order _ _ _ Hcs). cbn [app].
  rewrite length_map.
  unfold Builder_String. rewrite Get_query, Hq.
  assert (Hclause : strings.CountByte (clauseText b 0) "$" = List.length cs).
  { destruct (clause_of_loop b 0) as [-> _].
    now rewrite (whereLoop_dollars _ _ _ Hcs Hplain). }
  assert (Hsel : strings.CountByte
                   match columns with
                   | [] => "*"
                   | _ :: _ => strings.Join columns ", "
                   end "$" = 0%nat).
  { destruct columns; [reflexivity|].
    now apply concat_dollar_free. }
  assert (Hord : strings.CountByte
                   match orderBys b with
                   | [] => ""
                   | _ :: _ =>
                       " ORDER BY "
                       ++ strings.Join
                            (map OrderByBlock_String (orderBys b)) ", "
                   end "$" = 0%nat).
  { destruct (orderBys b) as [|o obs] eqn:E; [reflexivity|].
    rewrite CountByte_app. cbn [Nat.add].
    change (strings.CountByte " ORDER BY " "$") with 0%nat.
    apply concat_dollar_free; [reflexivity|].
    apply Forall_map. revert Hobs. apply Forall_impl.
    intros a [Hc Hd]. unfold dollar_free, OrderByBlock_String.
    now rewrite !CountByte_app, Hc, Hd. }
  assert (Hlim : strings.CountByte
                   match limit b with
                   | None => ""
                   | Some block => " LIMIT " ++ fmt.Sprint_int (lb_limit block)
                   end "$" = 0%nat).
  { destruct (limit b); [|reflexivity].
    rewrite CountByte_app. apply Sprint_int_dollar_free. }
  assert (Hoff : strings.CountByte
                   match offset b with
                   | None => ""
                   | Some block =>
                       " OFFSET " ++ fmt.Sprint_int (ofb_offset block)
                   end "$" = 0%nat).
  { destruct (offset b); [|reflexivity].
    rewrite CountByte_app. apply Sprint_int_dollar_free. }
  rewrite !CountByte_app, Hsel, Htn, Hord, Hlim, Hoff.
  destruct (wheres b) as [|w ws] eqn:Ew.
  - inversion Hcs; subst. reflexivity.
  - rewrite CountByte_app, Hclause. cbn. lia.
Qed.

Lemma placeholder_count_equals_value_count_witness :
  query sample_orders = ""
  /\ dollar_free (tableName sample_orders)
  /\ Forall dollar_free ["id"; "user_id"; "total"]
  /\ plain_wheres (tableName sample_orders) (wheres sample_orders)
  /\ Forall (fun o => dollar_free (ob_column o)
                      /\ dollar_free (ob_direction o))
            (orderBys (OrderBy sample_orders "id" "desc"))
  /\ strings.CountByte
       (Builder_String (Get (OrderBy sample_orders "id" "desc")
                            ["id"; "user_id"; "total"])) "$"
     = List.length (Values (Get (OrderBy sample_orders "id" "desc")
                                ["id"; "user_id"; "total"])).
Proof.
  assert (Hp : plain_wheres "orders" (wheres sample_orders)).
  { apply plain_group; [|constructor].
    vm_compute. apply plain_comparison; [split; reflexivity ..|].
    apply plain_or. apply plain_group; [|constructor].
    vm_compute. repeat (apply plain_comparison; [split; reflexivity ..|]).
    constructor. }
  assert (Ho : Forall (fun o => dollar_free (ob_column o)
                                /\ dollar_free (ob_direction o))
                      (orderBys (OrderBy sample_orders "id" "desc"))).
  { repeat constructor. }
  assert (Hc : Forall dollar_free ["id"; "user_id"; "total"]).
  { repeat constructor. }
  split; [reflexivity|]. split; [reflexivity|]. split; [exact Hc|].
  split; [exact Hp|]. split; [exact Ho|].
  exact (placeholder_count_equals_value_count
           (OrderBy sample_orders "id" "desc") ["id"; "user_id"; "total"]
           eq_refl eq_refl Hc Hp Ho).
Defined.

(** C5, as the claim has it, fails: a placeholder sign in the table name,
    in a selected column, in an operator or in an order-by column, the
    text [[WHERE]] in a column, and a second [Get] on the same builder
    each give a text with more placeholder signs than bound values. *)
Lemma placeholder_count_counterexample :
  strings.CountByte (Builder_String (Get (Table "pg$stats") [])) "$"
  <> List.length (Values (Get (Table "pg$stats") []))
  /\ strings.CountByte (Builder_String (Get (Table "t") ["a$b"])) "$"
     <> List.length (Values (Get (Table "t") ["a$b"]))
  /\ strings.CountByte
       (Builder_String
          (Get (Where (Table "t") "a" [VString "= $9 OR a ="; VInt 1]) []))
       "$"
     <> List.length
          (Values
             (Get (Where (Table "t") "a" [VString "= $9 OR a ="; VInt 1])
                  []))
  /\ strings.CountByte
       (Builder_String (Get (Where (Table "t") "[WHERE]" [VInt 1]) [])) "$"
     <> List.length (Values (Get (Where (Table "t") "[WHERE]" [VInt 1]) []))
  /\ strings.CountByte
       (Builder_String (Get (OrderBy (Table "t") "a$b" "asc") [])) "$"
     <> List.length (Values (Get (OrderBy (Table "t") "a$b" "asc") []))
  /\ strings.CountByte
       (Builder_String (Get (Get (Where (Table "t") "a" [VInt 1]) []) []))
       "$"
     <> List.length
          (Values (Get (Get (Where (Table "t") "a" [VInt 1]) []) [])).
Proof. repeat split; vm_compute; discriminate. Qed.

(** ** Building comparisons *)

(** C6.  [Where] with one value and [Where] with the operator ["="] and
    that value leave the same builder, so the text [Get] renders and the
    bound values are the same. *)
Theorem where_defaults_to_equals
        (b : Builder) (column : string) (val : Value) :
  Where b column [val] = Where b column [VString "="; val]
  /\ (forall columns,
        Builder_String (Get (Where b column [val]) columns)
        = Builder_String (Get (Where b column [VString "="; val]) columns))
  /\ Values (Where b column [val])
     = Values (Where b column [VString "="; val]).
Proof. repeat split; reflexivity. Qed.

(** C7.  [Where] with no value returns the builder it was given: no
    entry is added and no field changes, so [Get] and [Values] after it
    give what they give without it. *)
Theorem where_without_value_is_noop (b : Builder) (column : string) :
  Where b column [] = b
  /\ wheres (Where b column []) = wheres b
  /\ (forall columns,
        Builder_String (Get (Where b column []) columns)
        = Builder_String (Get b columns))
  /\ Values (Where b column []) = Values b.
Proof. repeat split; reflexivity. Qed.

(** ** Rendering *)

(** C8.  [OrderBy] appends one entry with the column as given and a
    direction that is the upper-cased input when the lower-cased input is
    asc or desc (so [ASC] or [DESC]), and [ASC] for every other input,
    the empty string included; nothing else in the builder changes.  The
    entries of a sequence of [OrderBy] calls are kept in the order of the
    calls, and [Get] renders them after [ORDER BY] as column, space,
    direction, joined with a comma and a space. *)
Theorem OrderBy_normalises_and_stacks
        (b : Builder) (column direction : string) :
  let stored :=
    if String.eqb (strings.ToLower direction) "desc" then "DESC" else "ASC" in
  OrderBy b column direction
  = mkBuilder (query b) (tableName b) (wheres b) (limit b) (offset b)
              (prev b) (orderBys b ++ [mkOrderByBlock column stored])
  /\ (strings.ToLower direction = "asc" ->
      stored = "ASC" /\ stored = strings.ToUpper direction)
  /\ (strings.ToLower direction = "desc" ->
      stored = "DESC" /\ stored = strings.ToUpper direction)
  /\ (strings.ToLower direction <> "asc" ->
      strings.ToLower direction <> "desc" -> stored = "ASC")
  /\ OrderBy b column ""
     = mkBuilder (query b) (tableName b) (wheres b) (limit b) (offset b)
                 (prev b) (orderBys b ++ [mkOrderByBlock column "ASC"])
  /\ (forall (name : string) (calls : list (string * string))
             (columns : list string),
        Builder_String (Get (OrderBy_calls (Table name) calls) columns)
        = "SELECT "
          ++ match columns with
             | [] => "*"
             | _ :: _ => strings.Join columns ", "
             end
          ++ " FROM " ++ name
          ++ match calls with
             | [] => ""
             | _ :: _ =>
                 " ORDER BY "
                 ++ strings.Join
                      (map (fun call =>
                              fst call ++ " " ++ storedDirection (snd call))
                           calls) ", "
             end
          ++ ";").
Proof.
  intros stored. split; [apply OrderBy_stores|].
  split.
  { intros H. subst stored. rewrite H. cbn. split; [reflexivity|].
    now rewrite <- ToUpper_ToLower, H. }
  split.
  { intros H. subst stored. rewrite H. cbn. split; [reflexivity|].
    now rewrite <- ToUpper_ToLower, H. }
  split.
  { intros _ H. subst stored.
    destruct (String.eqb (strings.ToLower direction) "desc") eqn:E;
      [|reflexivity].
    apply String.eqb_eq in E. contradiction. }
  split; [apply OrderBy_stores|].
  intros name calls columns. unfold Builder_String.
  rewrite Get_query, OrderBy_calls_stores.
  cbn [query tableName wheres limit offset prev orderBys Table app].
  rewrite map_map. cbn [OrderByBlock_String ob_column ob_direction].
  destruct calls as [|call calls]; reflexivity.
Qed.

(** C9.  [Get] appends to the text already in the builder (none for a
    statement not rendered before), in this order: [SELECT] and the
    columns joined with a comma and a space, or [*] when none is given;
    [FROM] and the table name; when the WHERE list is not empty, [WHERE]
    and the clause [buildWhereClause] assembles from counter 0; when
    there are order-by entries, [ORDER BY] and the entries joined with a
    comma and a space; when a limit is set, [LIMIT] and the number; when
    an offset is set, [OFFSET] and the number; and a semicolon. *)
Theorem Get_renders_in_fixed_order (b : Builder) (columns : list string) :
  Builder_String (Get b columns)
  = Builder_String b
    ++ "SELECT "
    ++ match columns with
       | [] => "*"
       | _ :: _ => strings.Join columns ", "
       end
    ++ " FROM " ++ tableName b
    ++ match wheres b with
       | [] => ""
       | _ :: _ => " WHERE " ++ clauseText b 0
       end
    ++ match orderBys b with
       | [] => ""
       | _ :: _ =>
           " ORDER BY "
           ++ strings.Join (map OrderByBlock_String (orderBys b)) ", "
       end
    ++ match limit b with
       | None => ""
       | Some block => " LIMIT " ++ fmt.Sprint_int (lb_limit block)
       end
    ++ match offset b with
       | None => ""
       | Some block => " OFFSET " ++ fmt.Sprint_int (ofb_offset block)
       end
    ++ ";".
Proof. exact (Get_query b columns). Qed.

(** C10.  [Where] with three or more values does what it does with the
    first two: the entry added has the text of the first value as its
    operator and the second value as its bound value, and the values
    from the third on play no part. *)
Theorem where_ignores_values_after_second
        (b : Builder) (column : string) (value0 value1 value2 : Value)
        (more : list Value) :
  Where b column (value0 :: value1 :: value2 :: more)
  = Where b column [value0; value1]
  /\ wheres (Where b column (value0 :: value1 :: value2 :: more))
     = (wheres b ++ [WhereBlock column value1 (fmt.Sprint value0)])%list
  /\ (forall columns,
        Builder_String
          (Get (Where b column (value0 :: value1 :: value2 :: more)) columns)
        = Builder_String (Get (Where b column [value0; value1]) columns))
  /\ Values (Where b column (value0 :: value1 :: value2 :: more))
     = Values (Where b column [value0; value1]).
Proof. repeat split; reflexivity. Qed.

(** * Further properties of the builder *)

(** ** The loop of [buildWhereClause], continued *)

(** At index 0 no joiner is written, so what [b.prev] holds when the
    loop starts plays no part in the text or the counter. *)
Lemma range_wheres_prev rec tn l subSB n p p' :
  fst (range_wheres rec tn l 0 subSB n p)
  = fst (range_wheres rec tn l 0 subSB n p').
Proof. destruct l as [|block l]; reflexivity. Qed.

Lemma range_wheres_prevAfter rec tn l : forall idx subSB n p,
  snd (range_wheres rec tn l idx subSB n p) = prevAfter l p.
Proof.
  induction l as [|block l IH]; intros idx subSB n p; [reflexivity|].
  cbn [range_wheres]. destruct (renderBlock rec tn block n) as [innerSB n'].
  now rewrite IH.
Qed.

Lemma clause_of_wheres b b' n :
  tableName b' = tableName b -> wheres b' = wheres b ->
  clauseText b' n = clauseText b n /\ clauseCounter b' n = clauseCounter b n.
Proof.
  intros Ht Hw.
  destruct (clause_of_loop b n) as [-> ->].
  destruct (clause_of_loop b' n) as [-> ->].
  rewrite Ht, Hw. unfold whereLoop.
  now rewrite (range_wheres_prev _ _ _ _ _ (prev b') (prev b)).
Qed.

Lemma range_values_app rec tn l1 : forall l2 values,
  range_values rec tn (l1 ++ l2) values
  = range_values rec tn l2 (range_values rec tn l1 values).
Proof.
  induction l1 as [|block l1 IH]; intros l2 values; [reflexivity|].
  cbn [app range_values]. now rewrite IH.
Qed.

Lemma valuesLoop_app_values tn l values :
  valuesLoop tn l values = (values ++ valuesLoop tn l [])%list.
Proof.
  destruct (document_order_total tn l) as [cs Hcs].
  now rewrite !(valuesLoop_document_order _ _ _ Hcs).
Qed.


(** ** The clause as a sequence of numbered comparisons *)

Lemma dollar_free_app s t :
  dollar_free s -> dollar_free t -> dollar_free (s ++ t).
Proof.
  unfold dollar_free. intros Hs Ht. now rewrite CountByte_app, Hs, Ht.
Qed.

Lemma interleaved_glue glue text fragments :
  dollar_free glue -> interleaved text fragments ->
  interleaved (glue ++ text) fragments.
Proof.
  intros Hg H. destruct H as [g Hd|g f text fs Hd H].
  - constructor. now apply dollar_free_app.
  - rewrite <- string_app_assoc. constructor; [|assumption].
    now apply dollar_free_app.
Qed.

Lemma interleaved_app text1 fs1 text2 fs2 :
  interleaved text1 fs1 -> interleaved text2 fs2 ->
  interleaved (text1 ++ text2) (fs1 ++ fs2).
Proof.
  intros H1 H2. induction H1 as [g Hd|g f text fs Hd H IH].
  - now apply interleaved_glue.
  - cbn [app]. rewrite !string_app_assoc. now constructor.
Qed.

Lemma numbered_app cs1 : forall cs2 n,
  numbered (cs1 ++ cs2) n
  = (numbered cs1 n ++ numbered cs2 (n + Z.of_nat (List.length cs1)))%list.
Proof.
  induction cs1 as [|[[column op] value] cs1 IH]; intros cs2 n.
  - cbn. now rewrite Z.add_0_r.
  - cbn [app numbered List.length]. rewrite IH. do 3 f_equal. lia.
Qed.

Lemma whereLoop_interleaved tn l cs :
  document_order tn l cs ->
  plain_wheres tn l ->
  forall idx n p,
    interleaved (fst (fst (whereLoop tn l idx "" n p))) (numbered cs n).
Proof.
  unfold whereLoop.
  induction 1 as [|column value op l cs H IH|column l cs H IH|l cs H IH
                  |fn l ci cs Hi IHi H IH];
    intros Hp idx n p.
  - constructor. reflexivity.
  - inversion Hp as [|? ? ? ? [_ Hc] [_ Ho] Hl| | |]; subst.
    cbn [range_wheres renderBlock]. rewrite range_wheres_text.
    specialize (IH Hl (S idx) (n + 1)%Z (Some (WhereBlock column value op))).
    destruct (range_wheres _ tn l (S idx) "" (n + 1)%Z
                (Some (WhereBlock column value op))) as [[written n'] p'].
    cbn [fst snd numbered] in *.
    fold (comparisonText column op n).
    rewrite <- (comparisonText_plain column op n) by assumption.
    set (fragment := comparisonText column op n).
    rewrite !string_app_assoc. cbn [append].
    apply (interleaved_cons (joiner idx p (WhereBlock column value op)));
      [apply joiner_dollar_free | exact IH].
  - inversion Hp as [| |? ? Hc Hl| |]; subst.
    cbn [range_wheres renderBlock]. rewrite range_wheres_text.
    specialize (IH Hl (S idx) n (Some (WhereNullBlock column))).
    destruct (range_wheres _ tn l (S idx) "" n
                (Some (WhereNullBlock column))) as [[written n'] p'].
    cbn [fst snd] in *. apply interleaved_glue; [|exact IH].
    cbn [append]. apply dollar_free_app; [apply joiner_dollar_free|].
    unfold WhereNullBlock_String. now apply dollar_free_app.
  - inversion Hp as [| | |? Hl|]; subst.
    cbn [range_wheres renderBlock]. rewrite range_wheres_text.
    specialize (IH Hl (S idx) n (Some OrBlock)).
    destruct (range_wheres _ tn l (S idx) "" n (Some OrBlock))
      as [[written n'] p'].
    cbn [fst snd] in *. apply interleaved_glue; [|exact IH].
    cbn [append]. apply dollar_free_app; [apply joiner_dollar_free|].
    reflexivity.
  - apply plain_wheres_group in Hp. destruct Hp as [Hpi Hp].
    cbn [range_wheres]. rewrite renderBlock_group, range_wheres_text.
    pose proof (whereLoop_counter _ _ _ Hi 0%nat "" n
                  (prev (fn_call fn (subBuilder tn)))) as Hk.
    destruct (clause_of_loop (fn_call fn (subBuilder tn)) n) as [Et Ec].
    destruct (group_builder tn fn) as [Etn Ewh].
    rewrite Etn, Ewh in Et, Ec. rewrite Et, Ec, Hk.
    specialize (IHi Hpi 0%nat n (prev (fn_call fn (subBuilder tn)))).
    specialize (IH Hp (S idx) (n + Z.of_nat (List.length ci))%Z
                   (Some (WhereFnBlock fn))).
    unfold whereLoop.
    destruct (range_wheres _ tn l (S idx) ""
                (n + Z.of_nat (List.length ci))%Z (Some (WhereFnBlock fn)))
      as [[written n'] p'].
    cbn [fst snd] in *. rewrite numbered_app.
    set (inner := fst (fst (range_wheres _ tn (group_wheres tn fn) 0 "" n
                                 (prev (fn_call fn (subBuilder tn)))))) in *.
    rewrite !string_app_assoc. cbn [append].
    apply interleaved_glue; [apply joiner_dollar_free|].
    apply (interleaved_glue "("); [reflexivity|].
    apply interleaved_app; [exact IHi|].
    apply (interleaved_glue ")"); [reflexivity | exact IH].
Qed.

(** X1.  When the columns and operators of the WHERE entries, those
    inside groups included, have no placeholder sign and do not contain
    the text [[WHERE]], and the columns of the null checks have no
    placeholder sign, the clause consists of the comparisons in document
    order, the i-th written as column, space, operator, space and the
    placeholder of number [whereValue + i], with text that has no
    placeholder sign before, between and after them. *)
Theorem clause_is_numbered_comparisons
        (b : Builder) (whereValue : Z) (cs : list Comparison) :
  document_order (tableName b) (wheres b) cs ->
  plain_wheres (tableName b) (wheres b) ->
  interleaved (clauseText b whereValue) (numbered cs whereValue).
Proof.
  intros Hcs Hp. destruct (clause_of_loop b whereValue) as [-> _].
  now apply whereLoop_interleaved.
Qed.

Lemma sample_orders_plain :
  plain_wheres (tableName sample_orders) (wheres sample_orders).
Proof.
  apply plain_group; [|constructor].
  vm_compute. apply plain_comparison; [split; reflexivity ..|].
  apply plain_or. apply plain_group; [|constructor].
  vm_compute. repeat (apply plain_comparison; [split; reflexivity ..|]).
  constructor.
Qed.

Lemma clause_is_numbered_comparisons_witness :
  document_order (tableName sample_orders) (wheres sample_orders)
                 sample_orders_comparisons
  /\ plain_wheres (tableName sample_orders) (wheres sample_orders)
  /\ interleaved (clauseText sample_orders 0)
                 (numbered sample_orders_comparisons 0).
Proof.
  split; [exact sample_orders_document_order|].
  split; [exact sample_orders_plain|].
  exact (clause_is_numbered_comparisons
           sample_orders 0 sample_orders_comparisons
           sample_orders_document_order sample_orders_plain).
Defined.

(** ** Joiners at the ends of the list *)

(** X2.  No joiner is written before the first WHERE entry: the clause
    begins with the text of that entry itself (nothing for an OR marker),
    and the entries after it are assembled from the counter it leaves. *)
Theorem first_entry_begins_clause
        (b : Builder) (whereValue : Z) (block : Block) (l : list Block) :
  wheres b = block :: l ->
  let rendered :=
    renderBlock (fun innerBuilder n => fst (buildWhereClause innerBuilder n))
                (tableName b) block whereValue in
  let after :=
    whereLoop (tableName b) l 1 "" (snd rendered) (Some block) in
  clauseText b whereValue = fst rendered ++ fst (fst after)
  /\ clauseCounter b whereValue = snd (fst after).
Proof.
  intros Hw rendered after.
  destruct (clause_of_loop b whereValue) as [-> ->]. rewrite Hw.
  subst after rendered. unfold whereLoop. cbn [range_wheres].
  destruct (renderBlock _ (tableName b) block whereValue) as [innerSB n'].
  rewrite range_wheres_text. cbn [fst snd].
  destruct (range_wheres _ (tableName b) l 1 "" n' (Some block))
    as [[written n3] p3].
  split; reflexivity.
Qed.

Lemma first_entry_begins_clause_witness :
  wheres (WhereNull (Where (Table "t") "a" [VInt 1]) "z")
  = WhereBlock "a" (VInt 1) "=" :: [WhereNullBlock "z"]
  /\ clauseText (WhereNull (Where (Table "t") "a" [VInt 1]) "z") 7
     = "a = $8" ++ " AND z IS NULL".
Proof.
  split; [reflexivity|].
  exact (proj1 (first_entry_begins_clause
                  (WhereNull (Where (Table "t") "a" [VInt 1]) "z") 7
                  (WhereBlock "a" (VInt 1) "=") [WhereNullBlock "z"]
                  eq_refl)).
Defined.

(** X3.  When the first WHERE entry is an OR marker and another entry
    follows it, the clause is [" OR "] followed by the clause of the list
    without the marker; the counter returned and the bound values are
    those of the list without the marker. *)
Theorem leading_marker_prepends_or
        (b : Builder) (whereValue : Z) (block : Block) (l : list Block) :
  wheres b = OrBlock :: block :: l ->
  clauseText b whereValue
  = " OR " ++ clauseText (set_wheres b (block :: l)) whereValue
  /\ clauseCounter b whereValue
     = clauseCounter (set_wheres b (block :: l)) whereValue
  /\ Values b = Values (set_wheres b (block :: l)).
Proof.
  intros Hw.
  destruct (clause_of_loop b whereValue) as [-> ->].
  destruct (clause_of_loop (set_wheres b (block :: l)) whereValue)
    as [-> ->].
  cbn [tableName wheres prev set_wheres]. rewrite Hw.
  pose proof (whereLoop_leading_marker (tableName b) block l whereValue
                (prev b) (prev b)) as H.
  destruct (whereLoop (tableName b) (OrBlock :: block :: l) 0 ""
                      whereValue (prev b)) as [[s n] p].
  cbn [fst snd] in *. injection H as -> ->.
  split; [reflexivity|]. split; [reflexivity|].
  unfold Values. rewrite !recursiveValues_unfold.
  cbn [tableName wheres set_wheres]. now rewrite Hw.
Qed.

Lemma leading_marker_prepends_or_witness :
  wheres (WhereNull (Where (Or (Table "t")) "a" [VInt 1]) "z")
  = OrBlock :: WhereBlock "a" (VInt 1) "=" :: [WhereNullBlock "z"]
  /\ clauseText (WhereNull (Where (Or (Table "t")) "a" [VInt 1]) "z") 0
     = " OR " ++ "a = $1 AND z IS NULL".
Proof.
  split; [reflexivity|].
  exact (proj1 (leading_marker_prepends_or
                  (WhereNull (Where (Or (Table "t")) "a" [VInt 1]) "z") 0
                  (WhereBlock "a" (VInt 1) "=") [WhereNullBlock "z"]
                  eq_refl)).
Defined.

(** ** Adding entries to a statement *)

Lemma whereLoop_snoc tn l block n p :
  whereLoop tn (l ++ [block]) 0 "" n p
  = let before := whereLoop tn l 0 "" n p in
    let rendered :=
      renderBlock (fun innerBuilder n => fst (buildWhereClause innerBuilder n))
                  tn block (snd (fst before)) in
    (fst (fst before) ++ joiner (List.length l) (prevAfter l p) block
       ++ fst rendered,
     snd rendered, Some block).
Proof.
  unfold whereLoop. rewrite range_wheres_split.
  pose proof (range_wheres_prevAfter
                (fun innerBuilder n => fst (buildWhereClause innerBuilder n))
                tn l 0 "" n p) as Hp.
  destruct (range_wheres _ tn l 0 "" n p) as [[subSB1 n1] p1].
  cbn [fst snd] in *. subst p1.
  destruct (renderBlock _ tn block n1) as [innerSB n2].
  cbn [range_wheres fst snd]. now rewrite string_app_nil_r.
Qed.

Lemma Values_snoc b block :
  Values (set_wheres b (wheres b ++ [block]))
  = (Values b
     ++ match block with
        | WhereBlock _ value _ => [value]
        | WhereFnBlock fn => Values (fn_call fn (subBuilder (tableName b)))
        | _ => []
        end)%list.
Proof.
  unfold Values. rewrite !recursiveValues_unfold.
  cbn [tableName wheres set_wheres]. unfold valuesLoop.
  rewrite range_values_app.
  set (values := range_values recursiveValues (tableName b) (wheres b) []).
  destruct block as [column value op|column| |fn]; cbn [range_values];
    rewrite ?app_nil_r; try reflexivity.
  rewrite !recursiveValues_unfold. apply valuesLoop_app_values.
Qed.

(** X4.  Every call that adds a WHERE entry leaves the text assembled
    for the entries before it as it was and appends to it: the clause of
    the longer list is the clause of the shorter one, then the joiner
    ([" OR "] after an OR marker, nothing in front of an OR marker or of
    the first entry, [" AND "] otherwise), then the text of the new
    entry, written with the counter the shorter list returns.  [Values]
    of the longer list is [Values] of the shorter one followed by the
    bound value of the new entry (for a group, the values of its
    callback's builder; for a null check or a marker, nothing).  [Where],
    [WhereNull], [WhereFn] and [Or] add their entry in this way. *)
Theorem added_entry_extends_clause_and_values
        (b : Builder) (whereValue : Z) (block : Block) :
  let b' := set_wheres b (wheres b ++ [block]) in
  let rendered :=
    renderBlock (fun innerBuilder n => fst (buildWhereClause innerBuilder n))
                (tableName b) block (clauseCounter b whereValue) in
  clauseText b' whereValue
  = clauseText b whereValue
    ++ joiner (List.length (wheres b)) (prevAfter (wheres b) (prev b)) block
    ++ fst rendered
  /\ clauseCounter b' whereValue = snd rendered
  /\ Values b'
     = (Values b
        ++ match block with
           | WhereBlock _ value _ => [value]
           | WhereFnBlock fn =>
               Values (fn_call fn (subBuilder (tableName b)))
           | _ => []
           end)%list
  /\ (forall column value,
        Where b column [value]
        = set_wheres b (wheres b ++ [WhereBlock column value "="]))
  /\ (forall column value0 value1 more,
        Where b column (value0 :: value1 :: more)
        = set_wheres b (wheres b
                        ++ [WhereBlock column value1 (fmt.Sprint value0)]))
  /\ (forall column,
        WhereNull b column
        = set_wheres b (wheres b ++ [WhereNullBlock column]))
  /\ (forall fn,
        WhereFn b fn = set_wheres b (wheres b ++ [WhereFnBlock fn]))
  /\ Or b = set_wheres b (wheres b ++ [OrBlock]).
Proof.
  intros b' rendered.
  destruct (clause_of_loop b' whereValue) as [Ht Hc].
  destruct (clause_of_loop b whereValue) as [Ht0 Hc0].
  subst b' rendered. cbn [tableName wheres prev set_wheres] in *.
  rewrite whereLoop_snoc in Ht, Hc. cbn [fst snd] in Ht, Hc.
  rewrite Ht, Hc, Ht0, Hc0.
  split; [reflexivity|]. split; [reflexivity|].
  split; [apply Values_snoc|]. repeat split; reflexivity.
Qed.

(** X5.  [Or] on its own does not change the clause unless the entry
    before it is an OR marker too, in which case it adds [" OR "]; it
    never changes the counter or the bound values. *)
Theorem or_call_alone
        (b : Builder) (whereValue : Z) :
  clauseText (Or b) whereValue
  = clauseText b whereValue
    ++ (if is_OrBlock (prevAfter (wheres b) None) then " OR " else "")
  /\ clauseCounter (Or b) whereValue = clauseCounter b whereValue
  /\ Values (Or b) = Values b.
Proof.
  destruct (clause_of_loop (Or b) whereValue) as [-> ->].
  destruct (clause_of_loop b whereValue) as [-> ->].
  cbn [Or tableName wheres prev set_wheres].
  rewrite whereLoop_snoc. cbn [fst snd renderBlock].
  split; [|split; [reflexivity|]].
  - rewrite string_app_nil_r. f_equal.
    destruct (wheres b) as [|e l] eqn:E using rev_ind; [reflexivity|].
    unfold joiner, prevAfter. rewrite length_app, !fold_left_app.
    cbn [fold_left List.length]. rewrite Nat.add_1_r.
    cbn [Nat.ltb Nat.leb]. now destruct e.
  - change (Or b) with (set_wheres b (wheres b ++ [OrBlock])).
    rewrite Values_snoc. apply app_nil_r.
Qed.

(** X6.  The entry added after an OR marker is joined with [" OR "],
    whatever the entry is and wherever the marker stands, at the head of
    the list included; it is written with the counter of the entries
    before the marker. *)
Theorem entry_after_or_call
        (b : Builder) (whereValue : Z) (block : Block) :
  let b' := set_wheres (Or b) (wheres (Or b) ++ [block]) in
  let rendered :=
    renderBlock (fun innerBuilder n => fst (buildWhereClause innerBuilder n))
                (tableName b) block (clauseCounter b whereValue) in
  clauseText b' whereValue
  = clauseText (Or b) whereValue ++ " OR " ++ fst rendered
  /\ clauseCounter b' whereValue = snd rendered
  /\ (forall column value,
        Where (Or b) column [value]
        = set_wheres (Or b)
            (wheres (Or b) ++ [WhereBlock column value "="]))
  /\ (forall column,
        WhereNull (Or b) column
        = set_wheres (Or b) (wheres (Or b) ++ [WhereNullBlock column]))
  /\ (forall fn,
        WhereFn (Or b) fn
        = set_wheres (Or b) (wheres (Or b) ++ [WhereFnBlock fn])).
Proof.
  intros b' rendered.
  destruct (clause_of_loop b' whereValue) as [Ht Hc].
  destruct (clause_of_loop (Or b) whereValue) as [Ht1 Hc1].
  destruct (clause_of_loop b whereValue) as [Ht0 Hc0].
  subst b' rendered. cbn [Or tableName wheres prev set_wheres] in *.
  rewrite whereLoop_snoc in Ht, Hc. cbn [fst snd] in Ht, Hc.
  rewrite whereLoop_snoc in Ht, Hc, Hc1. cbn [fst snd renderBlock] in *.
  rewrite Ht, Hc, Ht1, Hc0. clear Ht Hc Ht1 Hc1 Ht0 Hc0.
  assert (E : joiner (List.length (wheres b ++ [OrBlock]))
                     (prevAfter (wheres b ++ [OrBlock]) (prev b)) block
              = " OR ").
  { unfold joiner, prevAfter. rewrite length_app, fold_left_app.
    cbn [fold_left List.length]. now rewrite Nat.add_1_r. }
  rewrite E. rewrite whereLoop_snoc. cbn [fst snd renderBlock].
  repeat split; reflexivity.
Qed.

(** ** The two traversals *)

(** X7.  [recursiveValues] only appends to the sequence it is given:
    the result is that sequence followed by the bound values of the
    builder. *)
Theorem recursiveValues_appends (b : Builder) (values : list Value) :
  recursiveValues b values = (values ++ Values b)%list.
Proof.
  unfold Values. rewrite !recursiveValues_unfold.
  apply valuesLoop_app_values.
Qed.

(** X8.  The counter [buildWhereClause] returns is the counter it was
    started with plus the number of values [Values] returns; so after
    [Get], which starts at 0, the highest placeholder number is the
    length of [Values]. *)
Theorem counter_advances_by_value_count (b : Builder) (whereValue : Z) :
  clauseCounter b whereValue
  = (whereValue + Z.of_nat (List.length (Values b)))%Z.
Proof.
  destruct (document_order_total (tableName b) (wheres b)) as [cs Hcs].
  destruct (clause_of_loop b whereValue) as [_ ->].
  rewrite (whereLoop_counter _ _ _ Hcs).
  unfold Values. rewrite recursiveValues_unfold.
  rewrite (valuesLoop_document_order _ _ _ Hcs). cbn [app].
  now rewrite length_map.
Qed.

(** ** Rendering more than once *)

(** X9.  [Get] changes nothing but the text written and [b.prev]: the
    table name, the WHERE entries, the limit, the offset and the order-by
    entries are as before, and so are the clause and the bound
    values. *)
Theorem Get_keeps_the_statement (b : Builder) (columns : list string) :
  tableName (Get b columns) = tableName b
  /\ wheres (Get b columns) = wheres b
  /\ limit (Get b columns) = limit b
  /\ offset (Get b columns) = offset b
  /\ orderBys (Get b columns) = orderBys b
  /\ Values (Get b columns) = Values b
  /\ (forall whereValue,
        clauseText (Get b columns) whereValue = clauseText b whereValue).
Proof.
  destruct (Get_fields b columns) as (Ft & Fw & Fl & Fo & Fb).
  repeat split; try assumption.
  - now apply Values_of_fields.
  - intros whereValue. now apply clause_of_wheres.
Qed.

(** X10.  [Get] appends to the text that is already in the builder: for
    a statement not rendered before, a second [Get] gives the text of the
    first followed by the text that [Get] with the second column list
    gives on its own, so [String] then holds two statements. *)
Theorem second_Get_appends
        (b : Builder) (columns1 columns2 : list string) :
  query b = "" ->
  Builder_String (Get (Get b columns1) columns2)
  = Builder_String (Get b columns1) ++ Builder_String (Get b columns2).
Proof.
  intros Hq. unfold Builder_String.
  rewrite (Get_query (Get b columns1) columns2).
  rewrite (Get_query b columns2), Hq.
  destruct (Get_fields b columns1) as (Ft & Fw & Fl & Fo & Fb).
  destruct (clause_of_wheres b (Get b columns1) 0 Ft Fw) as [Hc _].
  now rewrite Ft, Fw, Fl, Fo, Fb, Hc.
Qed.

Lemma second_Get_appends_witness :
  query (Where (Table "t") "a" [VInt 1]) = ""
  /\ Builder_String (Get (Get (Where (Table "t") "a" [VInt 1]) []) ["a"])
     = "SELECT * FROM t WHERE a = $1;SELECT a FROM t WHERE a = $1;".
Proof.
  split; [reflexivity|].
  exact (second_Get_appends (Where (Table "t") "a" [VInt 1]) [] ["a"]
                            eq_refl).
Defined.

(** ** Bound values stay out of the text *)

Lemma range_wheres_same_text rec tn l l' :
  Forall2 same_text l l' ->
  forall idx subSB n p p',
    is_OrBlock p = is_OrBlock p' ->
    fst (range_wheres rec tn l idx subSB n p)
    = fst (range_wheres rec tn l' idx subSB n p').
Proof.
  induction 1 as [|e e' l l' He Hl IH]; intros idx subSB n p p' Hp;
    [reflexivity|].
  cbn [range_wheres].
  assert (E : renderBlock rec tn e n = renderBlock rec tn e' n
              /\ is_OrBlock (Some e) = is_OrBlock (Some e')).
  { destruct e, e'; cbn [same_text] in He; try discriminate He;
      match type of He with
      | _ /\ _ => destruct He as [-> ->]
      | _ => try (injection He as ->)
      end; split; reflexivity. }
  destruct E as [Er Eo]. rewrite Er.
  destruct (renderBlock rec tn e' n) as [innerSB n'].
  assert (Ej : joiner idx p e = joiner idx p' e').
  { unfold joiner. now rewrite Hp, Eo. }
  rewrite Ej. now apply IH.
Qed.

(** X11.  The bound value of a Comparison never reaches the text: two
    statements whose WHERE entries are the same up to the bound values of
    their Comparisons, and which agree in everything else, are rendered
    by [Get] to the same text. *)
Theorem text_does_not_depend_on_bound_values
        (b : Builder) (l' : list Block) (columns : list string) :
  Forall2 same_text (wheres b) l' ->
  Builder_String (Get (set_wheres b l') columns)
  = Builder_String (Get b columns)
  /\ (forall whereValue,
        clauseText (set_wheres b l') whereValue = clauseText b whereValue
        /\ clauseCounter (set_wheres b l') whereValue
           = clauseCounter b whereValue).
Proof.
  intros H.
  assert (Hc : forall whereValue,
             clauseText (set_wheres b l') whereValue = clauseText b whereValue
             /\ clauseCounter (set_wheres b l') whereValue
                = clauseCounter b whereValue).
  { intros whereValue.
    destruct (clause_of_loop b whereValue) as [-> ->].
    destruct (clause_of_loop (set_wheres b l') whereValue) as [-> ->].
    cbn [tableName wheres prev set_wheres]. unfold whereLoop.
    rewrite (range_wheres_same_text _ _ _ _ H 0%nat "" whereValue
               (prev b) (prev b) eq_refl).
    split; reflexivity. }
  split; [|exact Hc].
  unfold Builder_String. rewrite !Get_query.
  cbn [query tableName wheres limit offset orderBys set_wheres].
  rewrite (proj1 (Hc 0%Z)).
  destruct H; reflexivity.
Qed.

Lemma text_does_not_depend_on_bound_values_witness :
  Forall2 same_text
          (wheres (Where (WhereNull (Table "t") "z") "a" [VInt 1]))
          [WhereNullBlock "z"; WhereBlock "a" (VString "x' OR 1=1") "="]
  /\ Builder_String
       (Get (set_wheres (Where (WhereNull (Table "t") "z") "a" [VInt 1])
                        [WhereNullBlock "z";
                         WhereBlock "a" (VString "x' OR 1=1") "="]) [])
     = "SELECT * FROM t WHERE z IS NULL AND a = $1;".
Proof.
  assert (H : Forall2 same_text
                (wheres (Where (WhereNull (Table "t") "z") "a" [VInt 1]))
                [WhereNullBlock "z"; WhereBlock "a" (VString "x' OR 1=1") "="]).
  { repeat constructor. }
  split; [exact H|].
  exact (proj1 (text_does_not_depend_on_bound_values
                  (Where (WhereNull (Table "t") "z") "a" [VInt 1])
                  _ [] H)).
Defined.

(** ** Callbacks *)

Lemma Call_apply_wheres b c :
  wheres (Call_apply b c) = (wheres b ++ call_entries c)%list.
Proof.
  destruct c as [column value| | | | | |]; try reflexivity;
    try (cbn; now rewrite app_nil_r).
  destruct value as [|v0 [|v1 tl]]; cbn; try reflexivity.
  now rewrite app_nil_r.
Qed.

Lemma call_entries_none c : adds_entry c = false -> call_entries c = [].
Proof.
  destruct c as [column value| | | | | |]; try discriminate; try reflexivity.
  destruct value; [reflexivity | discriminate].
Qed.

Lemma fn_call_wheres fn : forall b,
  wheres (fn_call fn b) = (wheres b ++ flat_map call_entries fn)%list.
Proof.
  unfold fn_call.
  induction fn as [|c fn IH]; intros b; cbn [fold_left flat_map].
  - now rewrite app_nil_r.
  - rewrite IH, Call_apply_wheres. now rewrite <- app_assoc.
Qed.

Lemma flat_map_call_entries_filter fn :
  flat_map call_entries (filter adds_entry fn) = flat_map call_entries fn.
Proof.
  induction fn as [|c fn IH]; [reflexivity|]. cbn [filter flat_map].
  destruct (adds_entry c) eqn:E; cbn [flat_map]; rewrite IH;
    [reflexivity|].
  now rewrite (call_entries_none c E).
Qed.

Lemma group_wheres_filter tn fn :
  group_wheres tn (filter adds_entry fn) = group_wheres tn fn.
Proof.
  unfold group_wheres. rewrite !fn_call_wheres.
  now rewrite flat_map_call_entries_filter.
Qed.

Lemma group_clause_filter tn fn :
  Values (fn_call (filter adds_entry fn) (subBuilder tn))
  = Values (fn_call fn (subBuilder tn))
  /\ forall n,
       renderBlock
         (fun innerBuilder n => fst (buildWhereClause innerBuilder n))
         tn (WhereFnBlock (filter adds_entry fn)) n
       = renderBlock
           (fun innerBuilder n => fst (buildWhereClause innerBuilder n))
           tn (WhereFnBlock fn) n.
Proof.
  destruct (group_builder tn fn) as [Etn Ewh].
  destruct (group_builder tn (filter adds_entry fn)) as [Etn' Ewh'].
  rewrite group_wheres_filter in Ewh'.
  assert (Et : tableName (fn_call (filter adds_entry fn) (subBuilder tn))
               = tableName (fn_call fn (subBuilder tn))) by congruence.
  assert (Ew : wheres (fn_call (filter adds_entry fn) (subBuilder tn))
               = wheres (fn_call fn (subBuilder tn))) by congruence.
  clear Etn Ewh Etn' Ewh'. rename Et into Etn', Ew into Ewh'.
  split; [now apply Values_of_fields|].
  intros n. rewrite !renderBlock_group.
  destruct (clause_of_wheres _ _ n Etn' Ewh') as [-> ->]. reflexivity.
Qed.

(** X12.  Of the calls a callback makes on the builder of its group,
    only those that add a WHERE entry count: [OrderBy], [Limit] and
    [Offset] calls, and [Where] calls without a value, made inside the
    callback change neither the text [Get] renders nor the bound values,
    and the limit, offset and order-by entries of the statement are those
    set outside the callback. *)
Theorem callback_only_adds_entries
        (b : Builder) (fn : list Call) (columns : list string) :
  Builder_String (Get (WhereFn b fn) columns)
  = Builder_String (Get (WhereFn b (filter adds_entry fn)) columns)
  /\ Values (WhereFn b fn) = Values (WhereFn b (filter adds_entry fn))
  /\ limit (WhereFn b fn) = limit b
  /\ offset (WhereFn b fn) = offset b
  /\ orderBys (WhereFn b fn) = orderBys b.
Proof.
  destruct (group_clause_filter (tableName b) fn) as [Hv Hr].
  split; [|split; [|repeat split; reflexivity]].
  - unfold Builder_String. rewrite !Get_query.
    cbn [WhereFn query tableName wheres limit offset orderBys set_wheres].
    assert (Hc : clauseText (WhereFn b fn) 0
                 = clauseText (WhereFn b (filter adds_entry fn)) 0).
    { destruct (clause_of_loop (WhereFn b fn) 0) as [-> _].
      destruct (clause_of_loop (WhereFn b (filter adds_entry fn)) 0)
        as [-> _].
      cbn [WhereFn tableName wheres prev set_wheres].
      rewrite !whereLoop_snoc. cbn [fst snd]. rewrite Hr.
      reflexivity. }
    rewrite Hc. destruct (wheres b); reflexivity.
  - change (WhereFn b fn) with (set_wheres b (wheres b ++ [WhereFnBlock fn])).
    change (WhereFn b (filter adds_entry fn))
      with (set_wheres b (wheres b ++ [WhereFnBlock (filter adds_entry fn)])).
    rewrite !Values_snoc. now rewrite Hv.
Qed.

(** X13.  A group whose callback adds no WHERE entry is written as an
    empty pair of parentheses; it leaves the counter as it is and has no
    bound values. *)
Theorem empty_group_is_empty_parentheses
        (tn : string) (fn : list Call) (whereValue : Z) :
  forallb (fun c => negb (adds_entry c)) fn = true ->
  renderBlock (fun innerBuilder n => fst (buildWhereClause innerBuilder n))
              tn (WhereFnBlock fn) whereValue
  = ("()", whereValue)
  /\ Values (fn_call fn (subBuilder tn)) = [].
Proof.
  intros H.
  assert (E : filter adds_entry fn = []).
  { induction fn as [|c fn IH]; [reflexivity|].
    cbn [forallb] in H. apply andb_true_iff in H. destruct H as [Hc H].
    cbn [filter]. destruct (adds_entry c); [discriminate Hc|]. now apply IH. }
  destruct (group_clause_filter tn fn) as [Hv Hr].
  rewrite <- Hv, <- Hr, E. split; reflexivity.
Qed.

Lemma empty_group_is_empty_parentheses_witness :
  forallb (fun c => negb (adds_entry c))
          [CallLimit 3; CallWhere "a" []; CallOrderBy "a" "desc"] = true
  /\ renderBlock
       (fun innerBuilder n => fst (buildWhereClause innerBuilder n))
       "t" (WhereFnBlock [CallLimit 3; CallWhere "a" [];
                          CallOrderBy "a" "desc"]) 1
     = ("()", 1%Z).
Proof.
  split; [reflexivity|].
  exact (proj1 (empty_group_is_empty_parentheses
                  "t" [CallLimit 3; CallWhere "a" []; CallOrderBy "a" "desc"]
                  1 eq_refl)).
Defined.

(** ** Order-by directions *)

Lemma storedDirection_cases direction :
  storedDirection direction = "ASC" \/ storedDirection direction = "DESC".
Proof.
  unfold storedDirection.
  destruct (String.eqb (strings.ToLower direction) "desc"); auto.
Qed.

Lemma Call_apply_orderBys b c :
  Forall (fun o => ob_direction o = "ASC" \/ ob_direction o = "DESC")
         (orderBys b) ->
  Forall (fun o => ob_direction o = "ASC" \/ ob_direction o = "DESC")
         (orderBys (Call_apply b c)).
Proof.
  intros H. destruct c as [column value| | | |column direction| |];
    try exact H.
  - destruct value as [|v0 [|v1 tl]]; exact H.
  - cbn [Call_apply]. rewrite OrderBy_stores. cbn [orderBys].
    apply Forall_app. split; [exact H|].
    constructor; [apply storedDirection_cases | constructor].
Qed.

(** X14.  Whatever calls build a statement from [Table], and also after
    [Get], every order-by entry has the direction [ASC] or [DESC]: no
    other direction text is ever stored or rendered. *)
Theorem directions_are_ASC_or_DESC
        (name : string) (calls : list Call) (columns : list string) :
  Forall (fun o => ob_direction o = "ASC" \/ ob_direction o = "DESC")
         (orderBys (fn_call calls (Table name)))
  /\ Forall (fun o => ob_direction o = "ASC" \/ ob_direction o = "DESC")
            (orderBys (Get (fn_call calls (Table name)) columns)).
Proof.
  assert (H : forall b,
             Forall (fun o => ob_direction o = "ASC" \/ ob_direction o = "DESC")
                    (orderBys b) ->
             Forall (fun o => ob_direction o = "ASC" \/ ob_direction o = "DESC")
                    (orderBys (fn_call calls b))).
  { unfold fn_call. induction calls as [|c calls IH]; intros b Hb;
      [exact Hb|].
    cbn [fold_left]. apply IH. now apply Call_apply_orderBys. }
  destruct (Get_fields (fn_call calls (Table name)) columns)
    as (_ & _ & _ & _ & ->).
  split; apply H; constructor.
Qed.

(** X15.  [OrderBy] looks at the direction only up to the case of its
    letters: two directions with the same lower-case form give the same
    builder. *)
Theorem OrderBy_ignores_case
        (b : Builder) (column direction direction' : string) :
  strings.ToLower direction = strings.ToLower direction' ->
  OrderBy b column direction = OrderBy b column direction'.
Proof.
  intros H. rewrite !OrderBy_stores. unfold storedDirection. now rewrite H.
Qed.

Lemma OrderBy_ignores_case_witness :
  strings.ToLower "DeSc" = strings.ToLower "desc"
  /\ OrderBy (Table "t") "a" "DeSc" = OrderBy (Table "t") "a" "desc".
Proof.
  split; [reflexivity|].
  exact (OrderBy_ignores_case (Table "t") "a" "DeSc" "desc" eq_refl).
Defined.

(** ** The text of a comparison *)

(** X16.  For a column and an operator that do not contain the text
    [[WHERE]], a Comparison met with the counter at [whereValue] is
    written as the column, a space, the operator, a space and the
    placeholder of number [whereValue + 1], and the counter becomes
    [whereValue + 1]. *)
Theorem comparison_is_column_operator_placeholder
        (rec : Builder -> Z -> string * Z) (tn column op : string)
        (value : Value) (whereValue : Z) :
  strings.Contains column "[WHERE]" = false ->
  strings.Contains op "[WHERE]" = false ->
  renderBlock rec tn (WhereBlock column value op) whereValue
  = (column ++ " " ++ op ++ " " ++ "$" ++ fmt.Sprint_int (whereValue + 1),
     (whereValue + 1)%Z).
Proof.
  intros Hc Ho. cbn [renderBlock]. f_equal.
  now apply comparisonText_plain.
Qed.

Lemma comparison_is_column_operator_placeholder_witness :
  strings.Contains "created_at" "[WHERE]" = false
  /\ strings.Contains ">=" "[WHERE]" = false
  /\ renderBlock (fun _ n => ("", n)) "t"
                 (WhereBlock "created_at" (VString "2023-01-01") ">=") 41
     = ("created_at >= $42", 42%Z).
Proof.
  split; [reflexivity|]. split; [reflexivity|].
  exact (comparison_is_column_operator_placeholder
           (fun _ n => ("", n)) "t" "created_at" ">="
           (VString "2023-01-01") 41 eq_refl eq_refl).
Defined.

Lemma Sprint_int_inj n m : fmt.Sprint_int n = fmt.Sprint_int m -> n = m.
Proof.
  unfold fmt.Sprint_int. intros H.
  assert (Hnil : forall z, Z.to_int z <> Decimal.Pos Decimal.Nil
                           /\ Z.to_int z <> Decimal.Neg Decimal.Nil).
  { intros [|p|p]; cbn; split; try discriminate;
      intros E; injection E as E;
      exact (DecimalPos.Unsigned.to_uint_nonnil p E). }
  apply (f_equal NilZero.int_of_string) in H.
  rewrite !NilZero.isi in H by apply Hnil.
  injection H as H. apply (f_equal Z.of_int) in H.
  now rewrite !DecimalZ.of_to in H.
Qed.

Lemma string_app_inv_head (s t u : string) : s ++ t = s ++ u -> t = u.
Proof.
  induction s as [|c s IH]; cbn [append]; intros H; [exact H|].
  injection H as H. now apply IH.
Qed.

(** X17.  For a column and an operator that do not contain the text
    [[WHERE]], the text of a Comparison determines the counter it was
    written with: written at two different values of the counter, it has
    two different placeholders. *)
Theorem comparison_text_determines_counter
        (rec : Builder -> Z -> string * Z) (tn column op : string)
        (value value' : Value) (n m : Z) :
  strings.Contains column "[WHERE]" = false ->
  strings.Contains op "[WHERE]" = false ->
  fst (renderBlock rec tn (WhereBlock column value op) n)
  = fst (renderBlock rec tn (WhereBlock column value' op) m) ->
  n = m.
Proof.
  intros Hc Ho H. cbn [renderBlock fst] in H.
  fold (comparisonText column op n) (comparisonText column op m) in H.
  rewrite !comparisonText_plain in H by assumption.
  apply string_app_inv_head in H. cbn [append] in H. injection H as H.
  apply string_app_inv_head in H. injection H as H.
  apply Sprint_int_inj in H. lia.
Qed.

Lemma comparison_text_determines_counter_witness :
  strings.Contains "a" "[WHERE]" = false
  /\ strings.Contains "=" "[WHERE]" = false
  /\ fst (renderBlock (fun _ n => ("", n)) "t"
                      (WhereBlock "a" (VInt 1) "=") 4)
     = fst (renderBlock (fun _ n => ("", n)) "t"
                        (WhereBlock "a" (VInt 2) "=") 4)
  /\ 4%Z = 4%Z.
Proof.
  split; [reflexivity|]. split; [reflexivity|]. split; [reflexivity|].
  exact (comparison_text_determines_counter
           (fun _ n => ("", n)) "t" "a" "=" (VInt 1) (VInt 2) 4 4
           eq_refl eq_refl eq_refl).
Defined.
